(** * GPIO abstraction layer: validated value types and pin configurations

    A shallow embedding of [inc/Gpio.hpp] and [src/Gpio.cpp].

    - [uint32_t] values are integers of [Z]; implicit and explicit
      conversions to [uint32_t] are written out as [to_uint32].
    - The vendor headers ([esp_err.h], [driver/gpio.h]) are not part of the
      sources: their constants are the fields of [DriverHeader], and the
      driver functions are the methods of the class [Driver].
    - A constructor or method that may throw returns an [Outcome]; code that
      calls the driver runs in the monad [M], which threads the driver's
      hardware state and the log of the calls made, and keeps both when an
      exception is thrown. *)

From Stdlib Require Import ZArith List Bool Lia.
Import ListNotations.
Local Open Scope Z_scope.

(** ** Machine integers *)

Definition uint32 (z : Z) : Prop := 0 <= z < 2 ^ 32.

(** Conversion of an integer or enumerator to [uint32_t]. *)
Definition to_uint32 (z : Z) : Z := z mod 2 ^ 32.

(** ** Vendor headers *)

Definition esp_err_t := Z.

(** The constants of [esp_err.h] and [driver/gpio.h] that the layer uses,
    as the selected target defines them. *)
Class DriverHeader := {
  ESP_OK : esp_err_t;
  ESP_ERR_INVALID_ARG : esp_err_t;
  GPIO_NUM_MAX : Z;
  GPIO_DRIVE_CAP_0 : Z;
  GPIO_DRIVE_CAP_1 : Z;
  GPIO_DRIVE_CAP_2 : Z;
  GPIO_DRIVE_CAP_3 : Z;
  GPIO_DRIVE_CAP_MAX : Z;
  GPIO_FLOATING : Z;
  GPIO_PULLUP_ONLY : Z;
  GPIO_PULLDOWN_ONLY : Z;
  GPIO_INTR_LOW_LEVEL : Z;
  GPIO_INTR_HIGH_LEVEL : Z;
  GPIO_MODE_INPUT : Z;
  GPIO_MODE_OUTPUT : Z;
  GPIO_MODE_INPUT_OUTPUT_OD : Z
}.

(** The build targets of the [#if CONFIG_IDF_TARGET_...] chain. *)
Inductive idf_target :=
| IDF_TARGET_LINUX
| IDF_TARGET_ESP32
| IDF_TARGET_ESP32S2
| IDF_TARGET_ESP32S3
| IDF_TARGET_ESP32C3
| IDF_TARGET_ESP32C2.

Class BuildConfig := { CONFIG_IDF_TARGET : idf_target }.

(** ** Exceptions *)

Record GPIOException := { error : esp_err_t }.

Inductive Outcome (A : Type) :=
| Returned (a : A)
| Thrown (e : GPIOException).
Arguments Returned {A} a.
Arguments Thrown {A} e.

Definition is_returned {A} (o : Outcome A) : bool :=
  match o with Returned _ => true | Thrown _ => false end.

(** ** Strong value types *)

(** Modelled from the spec: [StrongValueComparable<uint32_t>] of [System.hpp]
    is not in the sources.  Section 4.1: it holds one immutable raw value,
    [get_value] reads it, and [==] and [!=] compare only the raw values. *)
Class StrongValueComparable (T : Type) := { get_value : T -> Z }.

Definition sv_eq {T} `{StrongValueComparable T} (a b : T) : bool :=
  get_value a =? get_value b.

Definition sv_neq {T} `{StrongValueComparable T} (a b : T) : bool :=
  negb (sv_eq a b).

Record GPIONum := { GPIONum_value : Z }.
Record GPIOPullMode := { GPIOPullMode_value : Z }.
Record GPIOWakeupIntrType := { GPIOWakeupIntrType_value : Z }.
Record GPIODriveStrength := { GPIODriveStrength_value : Z }.

#[export] Instance GPIONum_strong : StrongValueComparable GPIONum :=
  {| get_value := GPIONum_value |}.
#[export] Instance GPIOPullMode_strong : StrongValueComparable GPIOPullMode :=
  {| get_value := GPIOPullMode_value |}.
#[export] Instance GPIOWakeupIntrType_strong :
  StrongValueComparable GPIOWakeupIntrType :=
  {| get_value := GPIOWakeupIntrType_value |}.
#[export] Instance GPIODriveStrength_strong :
  StrongValueComparable GPIODriveStrength :=
  {| get_value := GPIODriveStrength_value |}.

Inductive GPIOLevel := HIGH | LOW.

Section Validation.
Context {hdr : DriverHeader} {cfg : BuildConfig}.

(** The anonymous namespace's table of pins that no GPIONum may name. *)
Definition INVALID_GPIOS : list Z :=
  match CONFIG_IDF_TARGET with
  | IDF_TARGET_LINUX => [24]
  | IDF_TARGET_ESP32 => [24]
  | IDF_TARGET_ESP32S2 => [22; 23; 24; 25]
  | IDF_TARGET_ESP32S3 => [22; 23; 24; 25]
  | IDF_TARGET_ESP32C3 => []
  | IDF_TARGET_ESP32C2 => []
  end.

(** The range-for loop of [isValidPin]: return at the first match. *)
Fixpoint scan_invalid (pin_num : Z) (nums : list Z) : esp_err_t :=
  match nums with
  | [] => ESP_OK
  | num :: rest =>
      if pin_num =? num then ESP_ERR_INVALID_ARG
      else scan_invalid pin_num rest
  end.

Definition isValidPin (pin_num : Z) : esp_err_t :=
  if pin_num >=? to_uint32 GPIO_NUM_MAX then ESP_ERR_INVALID_ARG
  else scan_invalid pin_num INVALID_GPIOS.

Definition isValidDriveStrengthPin (strength : Z) : esp_err_t :=
  if strength >=? to_uint32 GPIO_DRIVE_CAP_MAX then ESP_ERR_INVALID_ARG
  else ESP_OK.

(** [GPIONumBase::GPIONumBase(uint32_t pin)]. *)
Definition GPIONum_new (pin : Z) : Outcome GPIONum :=
  let pin_check_result := isValidPin pin in
  if negb (pin_check_result =? ESP_OK)
  then Thrown {| error := pin_check_result |}
  else Returned {| GPIONum_value := pin |}.

(** The private constructors: they store the value and check nothing. *)
Definition GPIOPullMode_new (pull_mode : Z) : Outcome GPIOPullMode :=
  Returned {| GPIOPullMode_value := pull_mode |}.

Definition GPIOWakeupIntrType_new (interrupt_level : Z)
  : Outcome GPIOWakeupIntrType :=
  Returned {| GPIOWakeupIntrType_value := interrupt_level |}.

(** [GPIODriveStrength::GPIODriveStrength(uint32_t strength)]. *)
Definition GPIODriveStrength_new (strength : Z) : Outcome GPIODriveStrength :=
  let strength_check_result := isValidDriveStrengthPin strength in
  if negb (strength_check_result =? ESP_OK)
  then Thrown {| error := strength_check_result |}
  else Returned {| GPIODriveStrength_value := strength |}.

(** The static creation methods; an enumerator passed to a [uint32_t]
    parameter is converted. *)
Definition FLOATING : Outcome GPIOPullMode :=
  GPIOPullMode_new (to_uint32 GPIO_FLOATING).
Definition PULLUP : Outcome GPIOPullMode :=
  GPIOPullMode_new (to_uint32 GPIO_PULLUP_ONLY).
Definition PULLDOWN : Outcome GPIOPullMode :=
  GPIOPullMode_new (to_uint32 GPIO_PULLDOWN_ONLY).

Definition LOW_LEVEL : Outcome GPIOWakeupIntrType :=
  GPIOWakeupIntrType_new (to_uint32 GPIO_INTR_LOW_LEVEL).
Definition HIGH_LEVEL : Outcome GPIOWakeupIntrType :=
  GPIOWakeupIntrType_new (to_uint32 GPIO_INTR_HIGH_LEVEL).

Definition WEAK : Outcome GPIODriveStrength :=
  GPIODriveStrength_new (to_uint32 GPIO_DRIVE_CAP_0).
Definition LESS_WEAK : Outcome GPIODriveStrength :=
  GPIODriveStrength_new (to_uint32 GPIO_DRIVE_CAP_1).
Definition MEDIUM : Outcome GPIODriveStrength :=
  GPIODriveStrength_new (to_uint32 GPIO_DRIVE_CAP_2).
Definition STRONGEST : Outcome GPIODriveStrength :=
  GPIODriveStrength_new (to_uint32 GPIO_DRIVE_CAP_3).
Definition DEFAULT : Outcome GPIODriveStrength := MEDIUM.
End Validation.

(** ** The driver *)

(** The driver functions the layer calls, with their arguments. *)
Inductive DriverCall :=
| call_gpio_reset_pin (gpio_num : Z)
| call_gpio_set_direction (gpio_num mode : Z)
| call_gpio_set_level (gpio_num level : Z)
| call_gpio_get_level (gpio_num : Z)
| call_gpio_set_pull_mode (gpio_num pull : Z)
| call_gpio_set_drive_capability (gpio_num strength : Z)
| call_gpio_get_drive_capability (gpio_num : Z)
| call_gpio_wakeup_enable (gpio_num intr_type : Z)
| call_gpio_wakeup_disable (gpio_num : Z)
| call_gpio_hold_en (gpio_num : Z)
| call_gpio_hold_dis (gpio_num : Z).

(** One call made to the driver and the [int] it returned. *)
Record Event := { ev_call : DriverCall; ev_ret : Z }.

(** The driver is opaque: each function maps the hardware state to a return
    value and a new hardware state.  [gpio_get_drive_capability] also yields
    what it wrote through its out-parameter. *)
Class Driver (HW : Type) := {
  gpio_reset_pin : Z -> HW -> esp_err_t * HW;
  gpio_set_direction : Z -> Z -> HW -> esp_err_t * HW;
  gpio_set_level : Z -> Z -> HW -> esp_err_t * HW;
  gpio_get_level : Z -> HW -> Z * HW;
  gpio_set_pull_mode : Z -> Z -> HW -> esp_err_t * HW;
  gpio_set_drive_capability : Z -> Z -> HW -> esp_err_t * HW;
  gpio_get_drive_capability : Z -> HW -> (esp_err_t * Z) * HW;
  gpio_wakeup_enable : Z -> Z -> HW -> esp_err_t * HW;
  gpio_wakeup_disable : Z -> HW -> esp_err_t * HW;
  gpio_hold_en : Z -> HW -> esp_err_t * HW;
  gpio_hold_dis : Z -> HW -> esp_err_t * HW
}.

(** What the layer runs against: the hardware behind the driver, and the
    calls made so far, oldest first. *)
Record World (HW : Type) := { hw : HW; calls : list Event }.
Arguments hw {HW} w.
Arguments calls {HW} w.

(** The pin classes.  [gpio_num] is the protected member of [GPIO]; a
    derived class is its base-class subobject. *)
Record GPIO := { gpio_num : GPIONum }.
Record PinOutput := { PinOutput_base : GPIO }.
Record PinInput := { PinInput_base : GPIO }.
Record PinOutputInput := { PinOutputInput_base : PinInput }.

Section Layer.
Context {hdr : DriverHeader} {cfg : BuildConfig}.
Context {HW : Type} {drv : Driver HW}.

(** Code that may throw and may call the driver. *)
Definition M (A : Type) : Type := World HW -> Outcome A * World HW.

Definition ret {A} (a : A) : M A := fun w => (Returned a, w).

Definition bind {A B} (m : M A) (k : A -> M B) : M B :=
  fun w =>
    match m w with
    | (Returned a, w') => k a w'
    | (Thrown e, w') => (Thrown e, w')
    end.

(** A constructor of a value type, run where the driver is in reach. *)
Definition lift {A} (o : Outcome A) : M A := fun w => (o, w).

(** A driver call: run it on the hardware and log it. *)
Definition driver_call {R} (c : DriverCall) (status : R -> Z)
    (f : HW -> R * HW) : World HW -> R * World HW :=
  fun w =>
    let (r, h) := f (hw w) in
    (r, {| hw := h;
           calls := calls w ++ [{| ev_call := c; ev_ret := status r |}] |}).

(** Modelled from the spec: the macro [CHECK_THROW_SPECIFIC] of
    [Exceptions.hpp] is not in the sources.  Section 6: it converts a
    non-success status into a typed failure carrying that status. *)
Definition GPIO_CHECK_THROW (err : World HW -> esp_err_t * World HW)
  : M unit :=
  fun w =>
    let (result, w') := err w in
    if negb (result =? ESP_OK)
    then (Thrown {| error := result |}, w')
    else (Returned tt, w').
End Layer.
Arguments M HW A : clear implicits.

Declare Scope gpio_scope.
Notation "x <- m ;; k" := (bind m (fun x => k))
  (at level 61, m at next level, right associativity) : gpio_scope.
Notation "m ;; k" := (bind m (fun _ => k))
  (at level 61, right associativity) : gpio_scope.
Local Open Scope gpio_scope.

Section Pins.
Context {hdr : DriverHeader} {cfg : BuildConfig}.
Context {HW : Type} {drv : Driver HW}.

(** [gpio_num.get_value<gpio_num_t>()]: the cast to the driver's
    enumeration keeps the number of every value a strong value holds. *)
Definition pin_of (g : GPIO) : Z := get_value (gpio_num g).

Definition GPIO_new (num : GPIONum) : M HW GPIO :=
  let this := {| gpio_num := num |} in
  GPIO_CHECK_THROW
    (driver_call (call_gpio_reset_pin (pin_of this)) id
       (gpio_reset_pin (pin_of this))) ;;
  ret this.

Definition GPIO_holdEnable (this : GPIO) : M HW unit :=
  GPIO_CHECK_THROW
    (driver_call (call_gpio_hold_en (pin_of this)) id
       (gpio_hold_en (pin_of this))).

Definition GPIO_holdDisable (this : GPIO) : M HW unit :=
  GPIO_CHECK_THROW
    (driver_call (call_gpio_hold_dis (pin_of this)) id
       (gpio_hold_dis (pin_of this))).

Definition GPIO_setDriveStrength (this : GPIO) (strength : GPIODriveStrength)
  : M HW unit :=
  GPIO_CHECK_THROW
    (driver_call
       (call_gpio_set_drive_capability (pin_of this) (get_value strength)) id
       (gpio_set_drive_capability (pin_of this) (get_value strength))).

Definition PinOutput_new (num : GPIONum) : M HW PinOutput :=
  base <- GPIO_new num ;;
  GPIO_CHECK_THROW
    (driver_call (call_gpio_set_direction (pin_of base) GPIO_MODE_OUTPUT) id
       (gpio_set_direction (pin_of base) GPIO_MODE_OUTPUT)) ;;
  ret {| PinOutput_base := base |}.

Definition PinOutput_setHigh (this : PinOutput) : M HW unit :=
  let g := PinOutput_base this in
  GPIO_CHECK_THROW
    (driver_call (call_gpio_set_level (pin_of g) 1) id
       (gpio_set_level (pin_of g) 1)).

Definition PinOutput_setLow (this : PinOutput) : M HW unit :=
  let g := PinOutput_base this in
  GPIO_CHECK_THROW
    (driver_call (call_gpio_set_level (pin_of g) 0) id
       (gpio_set_level (pin_of g) 0)).

(** The status is checked first; the out-parameter is read, converted and
    handed to the checking constructor only after that. *)
Definition GPIO_getDriveStrength (this : GPIO) : M HW GPIODriveStrength :=
  fun w =>
    let (reply, w') :=
      driver_call (call_gpio_get_drive_capability (pin_of this)) fst
        (gpio_get_drive_capability (pin_of this)) w in
    let strength := snd reply in
    (GPIO_CHECK_THROW (fun w0 => (fst reply, w0)) ;;
     lift (GPIODriveStrength_new (to_uint32 strength))) w'.

Definition PinInput_new (num : GPIONum) : M HW PinInput :=
  base <- GPIO_new num ;;
  GPIO_CHECK_THROW
    (driver_call (call_gpio_set_direction (pin_of base) GPIO_MODE_INPUT) id
       (gpio_set_direction (pin_of base) GPIO_MODE_INPUT)) ;;
  ret {| PinInput_base := base |}.

Definition PinInput_getLevel (this : PinInput) : M HW GPIOLevel :=
  fun w =>
    let g := PinInput_base this in
    let (level, w') :=
      driver_call (call_gpio_get_level (pin_of g)) id
        (gpio_get_level (pin_of g)) w in
    if negb (level =? 0) then (Returned HIGH, w') else (Returned LOW, w').

Definition PinInput_setPullMode (this : PinInput) (mode : GPIOPullMode)
  : M HW unit :=
  let g := PinInput_base this in
  GPIO_CHECK_THROW
    (driver_call (call_gpio_set_pull_mode (pin_of g) (get_value mode)) id
       (gpio_set_pull_mode (pin_of g) (get_value mode))).

Definition PinInput_wakeupEnable (this : PinInput)
    (interrupt_type : GPIOWakeupIntrType) : M HW unit :=
  let g := PinInput_base this in
  GPIO_CHECK_THROW
    (driver_call
       (call_gpio_wakeup_enable (pin_of g) (get_value interrupt_type)) id
       (gpio_wakeup_enable (pin_of g) (get_value interrupt_type))).

Definition PinInput_wakeupDisable (this : PinInput) : M HW unit :=
  let g := PinInput_base this in
  GPIO_CHECK_THROW
    (driver_call (call_gpio_wakeup_disable (pin_of g)) id
       (gpio_wakeup_disable (pin_of g))).

Definition PinOutputInput_new (num : GPIONum) : M HW PinOutputInput :=
  base <- PinInput_new num ;;
  GPIO_CHECK_THROW
    (driver_call
       (call_gpio_set_direction (pin_of (PinInput_base base))
          GPIO_MODE_INPUT_OUTPUT_OD) id
       (gpio_set_direction (pin_of (PinInput_base base))
          GPIO_MODE_INPUT_OUTPUT_OD)) ;;
  ret {| PinOutputInput_base := base |}.

Definition PinOutputInput_setFloating (this : PinOutputInput) : M HW unit :=
  let g := PinInput_base (PinOutputInput_base this) in
  GPIO_CHECK_THROW
    (driver_call (call_gpio_set_level (pin_of g) 1) id
       (gpio_set_level (pin_of g) 1)).

Definition PinOutputInput_setLow (this : PinOutputInput) : M HW unit :=
  let g := PinInput_base (PinOutputInput_base this) in
  GPIO_CHECK_THROW
    (driver_call (call_gpio_set_level (pin_of g) 0) id
       (gpio_set_level (pin_of g) 0)).

(** The caller's expression [PinOutput(GPIONum(p))] and its siblings: the
    argument is built, and checked, before the constructor runs. *)
Definition configure {A} (ctor : GPIONum -> M HW A) (p : Z) : M HW A :=
  num <- lift (GPIONum_new p) ;; ctor num.
End Pins.

(** ** Reading the call log *)

(** The calls made between two worlds. *)
Definition issued {HW} (w w' : World HW) : list Event :=
  skipn (length (calls w)) (calls w').

Definition is_reset (e : Event) : bool :=
  match ev_call e with call_gpio_reset_pin _ => true | _ => false end.

Definition is_set_direction (e : Event) : bool :=
  match ev_call e with call_gpio_set_direction _ _ => true | _ => false end.

Definition count_events (f : Event -> bool) (evs : list Event) : nat :=
  length (filter f evs).

(** ** A concrete platform and a scripted driver *)

(** Modelled from the spec: the illustrative platform of Section 8
    (reserved pin 24, 25 pins, maximal drive code 4, code 3 for STRONGEST).
    The codes that the spec leaves open carry the numbers of the vendor's
    enumerations. *)
Definition illustrative_header : DriverHeader := {|
  ESP_OK := 0;
  ESP_ERR_INVALID_ARG := 258;
  GPIO_NUM_MAX := 25;
  GPIO_DRIVE_CAP_0 := 0;
  GPIO_DRIVE_CAP_1 := 1;
  GPIO_DRIVE_CAP_2 := 2;
  GPIO_DRIVE_CAP_3 := 3;
  GPIO_DRIVE_CAP_MAX := 4;
  GPIO_FLOATING := 3;
  GPIO_PULLUP_ONLY := 0;
  GPIO_PULLDOWN_ONLY := 1;
  GPIO_INTR_LOW_LEVEL := 4;
  GPIO_INTR_HIGH_LEVEL := 5;
  GPIO_MODE_INPUT := 1;
  GPIO_MODE_OUTPUT := 2;
  GPIO_MODE_INPUT_OUTPUT_OD := 7
|}.

Definition linux_config : BuildConfig :=
  {| CONFIG_IDF_TARGET := IDF_TARGET_LINUX |}.

(** A scripted driver, for running the layer on concrete inputs: each call
    that returns a status takes the next scripted one ([ESP_OK] once the
    script is used up) and has its effect only when that status is [ESP_OK].
    It keeps the direction and the output level programmed per pin, the
    level that the inputs read and the drive code it reports. *)
Record MockHW := {
  mock_returns : list esp_err_t;
  mock_direction : list (Z * Z);
  mock_output : list (Z * Z);
  mock_input : Z;
  mock_drive_cap : Z
}.

Section Mock.
Context {hdr : DriverHeader}.

Definition mock_status (update : MockHW -> MockHW) (h : MockHW)
  : esp_err_t * MockHW :=
  let (r, script) :=
    match mock_returns h with
    | [] => (ESP_OK, [])
    | r :: script => (r, script)
    end in
  let h' := {| mock_returns := script;
               mock_direction := mock_direction h;
               mock_output := mock_output h;
               mock_input := mock_input h;
               mock_drive_cap := mock_drive_cap h |} in
  (r, if r =? ESP_OK then update h' else h').

Definition forget (pin : Z) (table : list (Z * Z)) : list (Z * Z) :=
  filter (fun entry => negb (fst entry =? pin)) table.

Definition mock_reset (pin : Z) (h : MockHW) : MockHW :=
  {| mock_returns := mock_returns h;
     mock_direction := forget pin (mock_direction h);
     mock_output := forget pin (mock_output h);
     mock_input := mock_input h;
     mock_drive_cap := mock_drive_cap h |}.

Definition mock_set_direction (pin mode : Z) (h : MockHW) : MockHW :=
  {| mock_returns := mock_returns h;
     mock_direction := (pin, mode) :: forget pin (mock_direction h);
     mock_output := mock_output h;
     mock_input := mock_input h;
     mock_drive_cap := mock_drive_cap h |}.

Definition mock_set_level (pin level : Z) (h : MockHW) : MockHW :=
  {| mock_returns := mock_returns h;
     mock_direction := mock_direction h;
     mock_output := (pin, level) :: forget pin (mock_output h);
     mock_input := mock_input h;
     mock_drive_cap := mock_drive_cap h |}.

Definition mock_set_drive_cap (strength : Z) (h : MockHW) : MockHW :=
  {| mock_returns := mock_returns h;
     mock_direction := mock_direction h;
     mock_output := mock_output h;
     mock_input := mock_input h;
     mock_drive_cap := strength |}.

#[export] Instance mock_driver : Driver MockHW := {|
  gpio_reset_pin pin := mock_status (mock_reset pin);
  gpio_set_direction pin mode := mock_status (mock_set_direction pin mode);
  gpio_set_level pin level := mock_status (mock_set_level pin level);
  gpio_get_level pin h := (mock_input h, h);
  gpio_set_pull_mode pin pull := mock_status id;
  gpio_set_drive_capability pin strength :=
    mock_status (mock_set_drive_cap strength);
  gpio_get_drive_capability pin h :=
    let (r, h') := mock_status id h in ((r, mock_drive_cap h), h');
  gpio_wakeup_enable pin intr_type := mock_status id;
  gpio_wakeup_disable pin := mock_status id;
  gpio_hold_en pin := mock_status id;
  gpio_hold_dis pin := mock_status id
|}.
End Mock.

(** A fresh board: nothing programmed, no failure scripted, no call made. *)
Definition fresh_board : World MockHW :=
  {| hw := {| mock_returns := []; mock_direction := []; mock_output := [];
              mock_input := 0; mock_drive_cap := 2 |};
     calls := [] |}.

(** A board whose driver will report the statuses of [script], in turn. *)
Definition scripted_board (script : list esp_err_t) (cap : Z) : World MockHW :=
  {| hw := {| mock_returns := script; mock_direction := [];
              mock_output := []; mock_input := 0; mock_drive_cap := cap |};
     calls := [] |}.

(** A pin object over pin 3. *)
Definition pin3 : GPIO := {| gpio_num := {| GPIONum_value := 3 |} |}.

(** ** Properties of the layer *)

Section Properties.
Context {hdr : DriverHeader} {cfg : BuildConfig}.

(** Assumptions on the vendor headers. *)
Definition error_codes_wf : Prop := ESP_ERR_INVALID_ARG <> ESP_OK.

(** The enumerators of one vendor enumeration: 32-bit and distinct. *)
Definition enumerators_wf (codes : list Z) : Prop :=
  Forall uint32 codes /\ NoDup codes.

Definition drive_caps_wf : Prop :=
  enumerators_wf
    [GPIO_DRIVE_CAP_0; GPIO_DRIVE_CAP_1; GPIO_DRIVE_CAP_2; GPIO_DRIVE_CAP_3]
  /\ Forall (fun c => c < GPIO_DRIVE_CAP_MAX)
       [GPIO_DRIVE_CAP_0; GPIO_DRIVE_CAP_1; GPIO_DRIVE_CAP_2;
        GPIO_DRIVE_CAP_3]
  /\ uint32 GPIO_DRIVE_CAP_MAX.

Definition pull_modes_wf : Prop :=
  enumerators_wf [GPIO_FLOATING; GPIO_PULLUP_ONLY; GPIO_PULLDOWN_ONLY].

Definition intr_types_wf : Prop :=
  enumerators_wf [GPIO_INTR_LOW_LEVEL; GPIO_INTR_HIGH_LEVEL].

(** A pin number the hardware has and does not reserve. *)
Definition usable_pin (p : Z) : Prop :=
  p < GPIO_NUM_MAX /\ ~ In p INVALID_GPIOS.

(** The values that an instance of each validated type may hold. *)
Definition valid_GPIONum (n : GPIONum) : Prop :=
  uint32 (get_value n) /\ usable_pin (get_value n).

Definition valid_GPIODriveStrength (d : GPIODriveStrength) : Prop :=
  0 <= get_value d < GPIO_DRIVE_CAP_MAX.

Definition valid_GPIOPullMode (m : GPIOPullMode) : Prop :=
  In (get_value m) [GPIO_FLOATING; GPIO_PULLUP_ONLY; GPIO_PULLDOWN_ONLY].

Definition valid_GPIOWakeupIntrType (t : GPIOWakeupIntrType) : Prop :=
  In (get_value t) [GPIO_INTR_LOW_LEVEL; GPIO_INTR_HIGH_LEVEL].
End Properties.

Section TraceProperties.
Context {hdr : DriverHeader} {cfg : BuildConfig}.
Context {HW : Type} {drv : Driver HW}.

Definition reported_ok (e : Event) : Prop := ev_ret e = ESP_OK.

(** What a configuration constructor [ctor] for the direction [mode] does
    on every pin number and in every world, whatever the driver answers:
    - its first call resets the pin, it makes no other reset, and every
      later call programs the direction of that pin;
    - a call that reports a status other than ESP_OK is the last one made,
      and the constructor throws that status;
    - when every call reports ESP_OK, the last one programs [mode] and the
      object is returned, holding the pin number;
    - an object is returned only when every call reported ESP_OK. *)
Definition ctor_protocol {A} (ctor : GPIONum -> M HW A)
    (num_of : A -> GPIONum) (mode : Z) : Prop :=
  forall (num : GPIONum) (w : World HW),
  exists evs,
    calls (snd (ctor num w)) = calls w ++ evs
    /\ (exists st rest,
           evs = {| ev_call := call_gpio_reset_pin (get_value num);
                    ev_ret := st |} :: rest
           /\ count_events is_reset evs = 1%nat
           /\ Forall (fun e => exists m,
                          ev_call e
                          = call_gpio_set_direction (get_value num) m) rest)
    /\ (forall e, In e evs -> ev_ret e <> ESP_OK ->
          fst (ctor num w) = Thrown {| error := ev_ret e |}
          /\ exists pre, evs = pre ++ [e] /\ Forall reported_ok pre)
    /\ (Forall reported_ok evs ->
          exists obj pre,
            fst (ctor num w) = Returned obj /\ num_of obj = num
            /\ evs = pre ++ [{| ev_call := call_gpio_set_direction
                                             (get_value num) mode;
                                ev_ret := ESP_OK |}])
    /\ (is_returned (fst (ctor num w)) = true -> Forall reported_ok evs).

(** What a constructor that resets the pin and then programs [mode] does
    to the driver.  [st0] and [h1] are what gpio_reset_pin answers on the
    hardware of the world; [st1] and [h2] what gpio_set_direction answers on
    the hardware that the reset left.  The constructor throws the status of
    the reset when it is not ESP_OK, leaving the hardware as the reset left
    it; otherwise it throws the status of the direction call when that is
    not ESP_OK; otherwise it returns [object num].  In the last two cases
    the hardware is as the direction call left it. *)
Definition reset_then_direction {A} (ctor : GPIONum -> M HW A)
    (object : GPIONum -> A) (mode : Z) : Prop :=
  forall (num : GPIONum) (w : World HW) st0 h1 st1 h2,
    gpio_reset_pin (get_value num) (hw w) = (st0, h1) ->
    gpio_set_direction (get_value num) mode h1 = (st1, h2) ->
    let reset :=
      {| ev_call := call_gpio_reset_pin (get_value num); ev_ret := st0 |} in
    let direction :=
      {| ev_call := call_gpio_set_direction (get_value num) mode;
         ev_ret := st1 |} in
    (st0 <> ESP_OK ->
     ctor num w
     = (Thrown {| error := st0 |},
        {| hw := h1; calls := calls w ++ [reset] |}))
    /\ (st0 = ESP_OK -> st1 <> ESP_OK ->
        ctor num w
        = (Thrown {| error := st1 |},
           {| hw := h2; calls := calls w ++ [reset; direction] |}))
    /\ (st0 = ESP_OK -> st1 = ESP_OK ->
        ctor num w
        = (Returned (object num),
           {| hw := h2; calls := calls w ++ [reset; direction] |})).

(** The same for a constructor that programs [mode1] and then [mode2]:
    [st2] and [h3] are what the second gpio_set_direction answers on the
    hardware that the first one left. *)
Definition reset_then_two_directions {A} (ctor : GPIONum -> M HW A)
    (object : GPIONum -> A) (mode1 mode2 : Z) : Prop :=
  forall (num : GPIONum) (w : World HW) st0 h1 st1 h2 st2 h3,
    gpio_reset_pin (get_value num) (hw w) = (st0, h1) ->
    gpio_set_direction (get_value num) mode1 h1 = (st1, h2) ->
    gpio_set_direction (get_value num) mode2 h2 = (st2, h3) ->
    let reset :=
      {| ev_call := call_gpio_reset_pin (get_value num); ev_ret := st0 |} in
    let first :=
      {| ev_call := call_gpio_set_direction (get_value num) mode1;
         ev_ret := st1 |} in
    let second :=
      {| ev_call := call_gpio_set_direction (get_value num) mode2;
         ev_ret := st2 |} in
    (st0 <> ESP_OK ->
     ctor num w
     = (Thrown {| error := st0 |},
        {| hw := h1; calls := calls w ++ [reset] |}))
    /\ (st0 = ESP_OK -> st1 <> ESP_OK ->
        ctor num w
        = (Thrown {| error := st1 |},
           {| hw := h2; calls := calls w ++ [reset; first] |}))
    /\ (st0 = ESP_OK -> st1 = ESP_OK -> st2 <> ESP_OK ->
        ctor num w
        = (Thrown {| error := st2 |},
           {| hw := h3; calls := calls w ++ [reset; first; second] |}))
    /\ (st0 = ESP_OK -> st1 = ESP_OK -> st2 = ESP_OK ->
        ctor num w
        = (Returned (object num),
           {| hw := h3; calls := calls w ++ [reset; first; second] |})).

(** A method whose outcome the driver alone decides: it makes one call and
    throws exactly when that call reports a status other than ESP_OK. *)
Definition decided_by_driver (method : M HW unit) (c : DriverCall) : Prop :=
  forall w,
  exists st,
    calls (snd (method w)) = calls w ++ [{| ev_call := c; ev_ret := st |}]
    /\ fst (method w)
       = if st =? ESP_OK then Returned tt else Thrown {| error := st |}.

(** The instances of the validated types that the public interface can
    bring into existence. *)
Inductive GPIONum_instance : GPIONum -> Prop :=
| GPIONum_constructed p n :
    uint32 p -> GPIONum_new p = Returned n -> GPIONum_instance n.

Inductive GPIODriveStrength_instance : GPIODriveStrength -> Prop :=
| GPIODriveStrength_constructed s d :
    uint32 s -> GPIODriveStrength_new s = Returned d ->
    GPIODriveStrength_instance d
| GPIODriveStrength_named f d :
    In f [DEFAULT; WEAK; LESS_WEAK; MEDIUM; STRONGEST] -> f = Returned d ->
    GPIODriveStrength_instance d
| GPIODriveStrength_read_back this w d w' :
    GPIO_getDriveStrength this w = (Returned d, w') ->
    GPIODriveStrength_instance d.

Inductive GPIOPullMode_instance : GPIOPullMode -> Prop :=
| GPIOPullMode_named f m :
    In f [FLOATING; PULLUP; PULLDOWN] -> f = Returned m ->
    GPIOPullMode_instance m.

Inductive GPIOWakeupIntrType_instance : GPIOWakeupIntrType -> Prop :=
| GPIOWakeupIntrType_named f t :
    In f [LOW_LEVEL; HIGH_LEVEL] -> f = Returned t ->
    GPIOWakeupIntrType_instance t.

(** The pin objects that the three public constructors can produce. *)
Inductive GPIO_instance : GPIO -> Prop :=
| GPIO_of_PinOutput num w o w' :
    GPIONum_instance num -> PinOutput_new num w = (Returned o, w') ->
    GPIO_instance (PinOutput_base o)
| GPIO_of_PinInput num w i w' :
    GPIONum_instance num -> PinInput_new num w = (Returned i, w') ->
    GPIO_instance (PinInput_base i)
| GPIO_of_PinOutputInput num w oi w' :
    GPIONum_instance num -> PinOutputInput_new num w = (Returned oi, w') ->
    GPIO_instance (PinInput_base (PinOutputInput_base oi)).

(** No method looks at the validity of the stored pin number again: on every
    object, each method that works on the stored number makes its driver
    call and lets the driver's status alone decide its outcome. *)
Definition stored_number_not_rechecked : Prop :=
  (forall this : GPIO,
      decided_by_driver (GPIO_holdEnable this)
        (call_gpio_hold_en (pin_of this))
      /\ decided_by_driver (GPIO_holdDisable this)
           (call_gpio_hold_dis (pin_of this))
      /\ forall s,
          decided_by_driver (GPIO_setDriveStrength this s)
            (call_gpio_set_drive_capability (pin_of this) (get_value s)))
  /\ (forall this : PinOutput,
         decided_by_driver (PinOutput_setHigh this)
           (call_gpio_set_level (pin_of (PinOutput_base this)) 1)
         /\ decided_by_driver (PinOutput_setLow this)
              (call_gpio_set_level (pin_of (PinOutput_base this)) 0))
  /\ (forall this : PinInput,
         (forall m,
             decided_by_driver (PinInput_setPullMode this m)
               (call_gpio_set_pull_mode (pin_of (PinInput_base this))
                  (get_value m)))
         /\ (forall t,
                decided_by_driver (PinInput_wakeupEnable this t)
                  (call_gpio_wakeup_enable (pin_of (PinInput_base this))
                     (get_value t)))
         /\ decided_by_driver (PinInput_wakeupDisable this)
              (call_gpio_wakeup_disable (pin_of (PinInput_base this))))
  /\ (forall this : PinOutputInput,
         decided_by_driver (PinOutputInput_setFloating this)
           (call_gpio_set_level
              (pin_of (PinInput_base (PinOutputInput_base this))) 1)
         /\ decided_by_driver (PinOutputInput_setLow this)
              (call_gpio_set_level
                 (pin_of (PinInput_base (PinOutputInput_base this))) 0)).
End TraceProperties.

Section CallProperties.
Context {hdr : DriverHeader} {cfg : BuildConfig}.
Context {HW : Type} {drv : Driver HW}.

(** The pin that a driver call names. *)
Definition call_pin (c : DriverCall) : Z :=
  match c with
  | call_gpio_reset_pin pin => pin
  | call_gpio_set_direction pin _ => pin
  | call_gpio_set_level pin _ => pin
  | call_gpio_get_level pin => pin
  | call_gpio_set_pull_mode pin _ => pin
  | call_gpio_set_drive_capability pin _ => pin
  | call_gpio_get_drive_capability pin => pin
  | call_gpio_wakeup_enable pin _ => pin
  | call_gpio_wakeup_disable pin => pin
  | call_gpio_hold_en pin => pin
  | call_gpio_hold_dis pin => pin
  end.

(** The mode that a call programs, when it programs a direction. *)
Definition call_mode (c : DriverCall) : option Z :=
  match c with
  | call_gpio_set_direction _ mode => Some mode
  | _ => None
  end.

(** The pins that the table of a target reserves, as a range test. *)
Definition reserved_on (t : idf_target) (p : Z) : Prop :=
  match t with
  | IDF_TARGET_LINUX | IDF_TARGET_ESP32 => p = 24
  | IDF_TARGET_ESP32S2 | IDF_TARGET_ESP32S3 => 22 <= p <= 25
  | IDF_TARGET_ESP32C3 | IDF_TARGET_ESP32C2 => False
  end.

(** An exception that [m] throws never carries ESP_OK. *)
Definition never_throws_ok {A} (m : M HW A) : Prop :=
  forall w e w', m w = (Thrown e, w') -> error e <> ESP_OK.


(** Every direction that [m] programs is one of [modes]. *)
Definition programs_only {A} (modes : list Z) (m : M HW A) : Prop :=
  forall w e mode,
    In e (issued w (snd (m w))) ->
    call_mode (ev_call e) = Some mode -> In mode modes.
End CallProperties.

(** A build for the ESP32-S2. *)
Definition esp32s2_config : BuildConfig :=
  {| CONFIG_IDF_TARGET := IDF_TARGET_ESP32S2 |}.

(** ** Validation of pin numbers and drive strengths *)

Section ValidationFacts.
Context {hdr : DriverHeader} {cfg : BuildConfig}.

Lemma to_uint32_small z : uint32 z -> to_uint32 z = z.
Proof. intros Hz. unfold to_uint32. apply Z.mod_small. exact Hz. Qed.

Lemma scan_invalid_cases p nums :
  (scan_invalid p nums = ESP_OK /\ ~ In p nums)
  \/ (scan_invalid p nums = ESP_ERR_INVALID_ARG /\ In p nums).
Proof.
  induction nums as [|num rest IH]; simpl.
  - left. split; [reflexivity | tauto].
  - destruct (Z.eqb_spec p num) as [->|Hne].
    + right. split; [reflexivity | now left].
    + destruct IH as [[Hok Hnin]|[Herr Hin]].
      * left. split; [exact Hok | intros [Heq|Hin]; [congruence | tauto]].
      * right. split; [exact Herr | now right].
Qed.

Lemma isValidPin_cases p :
  uint32 GPIO_NUM_MAX ->
  (isValidPin p = ESP_OK /\ usable_pin p)
  \/ (isValidPin p = ESP_ERR_INVALID_ARG /\ ~ usable_pin p).
Proof.
  intros Hmax. unfold isValidPin, usable_pin.
  rewrite (to_uint32_small _ Hmax).
  destruct (Z.geb_spec p GPIO_NUM_MAX) as [Hge|Hlt].
  - right. split; [reflexivity | lia].
  - destruct (scan_invalid_cases p INVALID_GPIOS) as [[Hok Hnin]|[Herr Hin]].
    + left. split; [exact Hok | split; [lia | exact Hnin]].
    + right. split; [exact Herr | tauto].
Qed.

Lemma isValidDriveStrengthPin_cases s :
  uint32 GPIO_DRIVE_CAP_MAX ->
  (isValidDriveStrengthPin s = ESP_OK /\ s < GPIO_DRIVE_CAP_MAX)
  \/ (isValidDriveStrengthPin s = ESP_ERR_INVALID_ARG
      /\ GPIO_DRIVE_CAP_MAX <= s).
Proof.
  intros Hmax. unfold isValidDriveStrengthPin.
  rewrite (to_uint32_small _ Hmax).
  destruct (Z.geb_spec s GPIO_DRIVE_CAP_MAX) as [Hge|Hlt].
  - right. split; [reflexivity | lia].
  - left. split; [reflexivity | lia].
Qed.

Lemma status_test_ok : negb (ESP_OK =? ESP_OK) = false.
Proof. now rewrite Z.eqb_refl. Qed.

Lemma status_test_invalid_arg :
  error_codes_wf -> negb (ESP_ERR_INVALID_ARG =? ESP_OK) = true.
Proof.
  intros Hwf. destruct (Z.eqb_spec ESP_ERR_INVALID_ARG ESP_OK) as [Heq|Hne].
  - now elim Hwf.
  - reflexivity.
Qed.

Lemma GPIONum_new_usable p :
  uint32 GPIO_NUM_MAX -> usable_pin p ->
  GPIONum_new p = Returned {| GPIONum_value := p |}.
Proof.
  intros Hmax Hp. unfold GPIONum_new.
  destruct (isValidPin_cases p Hmax) as [[-> _]|[_ Hn]]; [|tauto].
  now rewrite status_test_ok.
Qed.

Lemma GPIONum_new_unusable p :
  error_codes_wf -> uint32 GPIO_NUM_MAX -> ~ usable_pin p ->
  GPIONum_new p = Thrown {| error := ESP_ERR_INVALID_ARG |}.
Proof.
  intros Hwf Hmax Hp. unfold GPIONum_new.
  destruct (isValidPin_cases p Hmax) as [[_ Hu]|[-> _]]; [tauto|].
  now rewrite status_test_invalid_arg.
Qed.

Lemma GPIODriveStrength_new_in_range s :
  uint32 GPIO_DRIVE_CAP_MAX -> s < GPIO_DRIVE_CAP_MAX ->
  GPIODriveStrength_new s = Returned {| GPIODriveStrength_value := s |}.
Proof.
  intros Hmax Hs. unfold GPIODriveStrength_new.
  destruct (isValidDriveStrengthPin_cases s Hmax) as [[-> _]|[_ Hn]]; [|lia].
  now rewrite status_test_ok.
Qed.

Lemma GPIODriveStrength_new_out_of_range s :
  error_codes_wf -> uint32 GPIO_DRIVE_CAP_MAX -> GPIO_DRIVE_CAP_MAX <= s ->
  GPIODriveStrength_new s = Thrown {| error := ESP_ERR_INVALID_ARG |}.
Proof.
  intros Hwf Hmax Hs. unfold GPIODriveStrength_new.
  destruct (isValidDriveStrengthPin_cases s Hmax) as [[_ Hu]|[-> _]]; [lia|].
  now rewrite status_test_invalid_arg.
Qed.
End ValidationFacts.

(** C1. For every unsigned 32-bit [p], constructing a GPIONum from [p]
    succeeds iff [p] is below the platform's pin count and is not one of its
    reserved pins; the value produced then holds [p]; otherwise the
    constructor throws a GPIOException carrying ESP_ERR_INVALID_ARG and
    produces no value. *)
Theorem GPIONum_new_succeeds_iff
    (hdr : DriverHeader) (cfg : BuildConfig) (p : Z)
    (Herr : error_codes_wf) (Hmax : uint32 GPIO_NUM_MAX) (Hp : uint32 p) :
  ((exists n, GPIONum_new p = Returned n) <-> usable_pin p)
  /\ (forall n, GPIONum_new p = Returned n -> get_value n = p)
  /\ (~ usable_pin p ->
      GPIONum_new p = Thrown {| error := ESP_ERR_INVALID_ARG |}
      /\ is_returned (GPIONum_new p) = false).
Proof.
  split; [split|split].
  - intros [n Hn]. destruct (isValidPin_cases p Hmax) as [[_ Hu]|[_ Hnu]].
    + exact Hu.
    + rewrite (GPIONum_new_unusable p Herr Hmax Hnu) in Hn. discriminate.
  - intros Hu. eexists. apply GPIONum_new_usable; assumption.
  - intros n Hn. destruct (isValidPin_cases p Hmax) as [[_ Hu]|[_ Hnu]].
    + rewrite (GPIONum_new_usable p Hmax Hu) in Hn.
      injection Hn as <-. reflexivity.
    + rewrite (GPIONum_new_unusable p Herr Hmax Hnu) in Hn. discriminate.
  - intros Hnu. rewrite (GPIONum_new_unusable p Herr Hmax Hnu).
    split; reflexivity.
Qed.

(** C4. For every unsigned 32-bit [s], constructing a GPIODriveStrength from
    [s] succeeds iff [s] is below the platform's maximal drive-strength code,
    and otherwise throws a GPIOException carrying ESP_ERR_INVALID_ARG.  On
    the illustrative platform (maximal code 4) construction from 4 fails,
    construction from 3 succeeds, and its result equals STRONGEST(). *)
Theorem GPIODriveStrength_new_succeeds_iff :
  (forall (hdr : DriverHeader) (s : Z),
      error_codes_wf -> uint32 GPIO_DRIVE_CAP_MAX -> uint32 s ->
      ((exists d, GPIODriveStrength_new s = Returned d)
       <-> s < GPIO_DRIVE_CAP_MAX)
      /\ (forall d, GPIODriveStrength_new s = Returned d -> get_value d = s)
      /\ (GPIO_DRIVE_CAP_MAX <= s ->
          GPIODriveStrength_new s = Thrown {| error := ESP_ERR_INVALID_ARG |}
          /\ is_returned (GPIODriveStrength_new s) = false))
  /\ (@GPIO_DRIVE_CAP_MAX illustrative_header = 4
      /\ @GPIODriveStrength_new illustrative_header 4
         = Thrown {| error := @ESP_ERR_INVALID_ARG illustrative_header |}
      /\ exists d strongest,
          @GPIODriveStrength_new illustrative_header 3 = Returned d
          /\ @STRONGEST illustrative_header = Returned strongest
          /\ sv_eq d strongest = true
          /\ d = strongest).
Proof.
  split.
  - intros hdr s Herr Hmax Hs. split; [split|split].
    + intros [d Hd].
      destruct (isValidDriveStrengthPin_cases s Hmax) as [[_ Hlt]|[_ Hge]].
      * exact Hlt.
      * rewrite (GPIODriveStrength_new_out_of_range s Herr Hmax Hge) in Hd.
        discriminate.
    + intros Hlt. eexists. apply GPIODriveStrength_new_in_range; assumption.
    + intros d Hd.
      destruct (isValidDriveStrengthPin_cases s Hmax) as [[_ Hlt]|[_ Hge]].
      * rewrite (GPIODriveStrength_new_in_range s Hmax Hlt) in Hd.
        injection Hd as <-. reflexivity.
      * rewrite (GPIODriveStrength_new_out_of_range s Herr Hmax Hge) in Hd.
        discriminate.
    + intros Hge. rewrite (GPIODriveStrength_new_out_of_range s Herr Hmax Hge).
      split; reflexivity.
  - split; [reflexivity | split; [reflexivity|]].
    exists {| GPIODriveStrength_value := 3 |}, {| GPIODriveStrength_value := 3 |}.
    repeat split; reflexivity.
Qed.

(** ** The named factories *)

Section Factories.
Context {hdr : DriverHeader}.

Lemma sv_neq_values {T} `{StrongValueComparable T} (a b : T) :
  sv_neq a b = true <-> get_value a <> get_value b.
Proof.
  unfold sv_neq, sv_eq.
  destruct (Z.eqb_spec (get_value a) (get_value b)); simpl; split;
    congruence.
Qed.

Lemma NoDup_two (a b : Z) : NoDup [a; b] -> a <> b.
Proof.
  intros Hnd Heq. inversion Hnd as [|x l Hnin _]; subst.
  apply Hnin. now left.
Qed.

Lemma NoDup_tail (a : Z) l : NoDup (a :: l) -> NoDup l.
Proof. intros Hnd. now inversion Hnd. Qed.

Lemma NoDup_head (a b : Z) l : NoDup (a :: l) -> In b l -> a <> b.
Proof.
  intros Hnd Hin Heq. inversion Hnd as [|x l' Hnin _]; subst. tauto.
Qed.

Lemma drive_factory_succeeds c :
  uint32 GPIO_DRIVE_CAP_MAX -> uint32 c -> c < GPIO_DRIVE_CAP_MAX ->
  GPIODriveStrength_new (to_uint32 c)
  = Returned {| GPIODriveStrength_value := c |}.
Proof.
  intros Hmax Hc Hlt. rewrite (to_uint32_small c Hc).
  now apply GPIODriveStrength_new_in_range.
Qed.
End Factories.

(** C5. The named factories always succeed and are pairwise distinct within
    their type: WEAK, LESS_WEAK, MEDIUM and STRONGEST return four pairwise
    unequal drive strengths and DEFAULT returns what MEDIUM returns;
    FLOATING, PULLUP and PULLDOWN return three pairwise unequal pull modes;
    LOW_LEVEL and HIGH_LEVEL return two wake-up types of different value.
    The vendor's enumerators are taken to be distinct 32-bit codes, the
    drive capabilities below GPIO_DRIVE_CAP_MAX. *)
Theorem factories_succeed_and_differ
    (hdr : DriverHeader)
    (Hcaps : drive_caps_wf) (Hpull : pull_modes_wf) (Hintr : intr_types_wf) :
  (exists weak less_weak medium strongest,
      WEAK = Returned weak /\ LESS_WEAK = Returned less_weak
      /\ MEDIUM = Returned medium /\ STRONGEST = Returned strongest
      /\ sv_neq weak less_weak = true /\ sv_neq weak medium = true
      /\ sv_neq weak strongest = true /\ sv_neq less_weak medium = true
      /\ sv_neq less_weak strongest = true /\ sv_neq medium strongest = true
      /\ DEFAULT = Returned medium
      /\ forall dflt, DEFAULT = Returned dflt -> sv_eq dflt medium = true)
  /\ (exists floating pullup pulldown,
         FLOATING = Returned floating /\ PULLUP = Returned pullup
         /\ PULLDOWN = Returned pulldown
         /\ sv_neq floating pullup = true /\ sv_neq floating pulldown = true
         /\ sv_neq pullup pulldown = true)
  /\ (exists low_level high_level,
         LOW_LEVEL = Returned low_level /\ HIGH_LEVEL = Returned high_level
         /\ get_value low_level <> get_value high_level).
Proof.
  destruct Hcaps as [[Hc32 Hcnd] [Hclt Hmax]].
  destruct Hpull as [Hp32 Hpnd]. destruct Hintr as [Hi32 Hind].
  repeat match goal with
         | H : Forall _ (_ :: _) |- _ =>
             let Hx := fresh "Hx" in
             let Hr := fresh "Hr" in
             apply Forall_cons_iff in H; destruct H as [Hx Hr]
         end.
  split; [|split].
  - exists {| GPIODriveStrength_value := GPIO_DRIVE_CAP_0 |},
           {| GPIODriveStrength_value := GPIO_DRIVE_CAP_1 |},
           {| GPIODriveStrength_value := GPIO_DRIVE_CAP_2 |},
           {| GPIODriveStrength_value := GPIO_DRIVE_CAP_3 |}.
    unfold DEFAULT, WEAK, LESS_WEAK, MEDIUM, STRONGEST.
    rewrite !drive_factory_succeeds by assumption.
    rewrite !sv_neq_values. simpl.
    pose proof (NoDup_head _ GPIO_DRIVE_CAP_1 _ Hcnd) as H01.
    pose proof (NoDup_head _ GPIO_DRIVE_CAP_2 _ Hcnd) as H02.
    pose proof (NoDup_head _ GPIO_DRIVE_CAP_3 _ Hcnd) as H03.
    apply NoDup_tail in Hcnd.
    pose proof (NoDup_head _ GPIO_DRIVE_CAP_2 _ Hcnd) as H12.
    pose proof (NoDup_head _ GPIO_DRIVE_CAP_3 _ Hcnd) as H13.
    apply NoDup_tail in Hcnd. apply NoDup_two in Hcnd.
    simpl in *.
    repeat split; try reflexivity; try tauto.
    intros dflt Hd. injection Hd as <-. unfold sv_eq. apply Z.eqb_refl.
  - exists {| GPIOPullMode_value := GPIO_FLOATING |},
           {| GPIOPullMode_value := GPIO_PULLUP_ONLY |},
           {| GPIOPullMode_value := GPIO_PULLDOWN_ONLY |}.
    unfold FLOATING, PULLUP, PULLDOWN, GPIOPullMode_new.
    rewrite !to_uint32_small by assumption.
    rewrite !sv_neq_values. simpl.
    pose proof (NoDup_head _ GPIO_PULLUP_ONLY _ Hpnd) as H01.
    pose proof (NoDup_head _ GPIO_PULLDOWN_ONLY _ Hpnd) as H02.
    apply NoDup_tail in Hpnd. apply NoDup_two in Hpnd.
    simpl in *. repeat split; try reflexivity; tauto.
  - exists {| GPIOWakeupIntrType_value := GPIO_INTR_LOW_LEVEL |},
           {| GPIOWakeupIntrType_value := GPIO_INTR_HIGH_LEVEL |}.
    unfold LOW_LEVEL, HIGH_LEVEL, GPIOWakeupIntrType_new.
    rewrite !to_uint32_small by assumption.
    apply NoDup_two in Hind. simpl. repeat split; try reflexivity; tauto.
Qed.

(** ** Running the layer against the driver *)

Section Runs.
Context {hdr : DriverHeader} {cfg : BuildConfig}.
Context {HW : Type} {drv : Driver HW}.

(** A checked driver call, in terms of what the driver answers. *)
Lemma checked_call_run c (f : HW -> esp_err_t * HW) w :
  GPIO_CHECK_THROW (driver_call c id f) w
  = (if fst (f (hw w)) =? ESP_OK then Returned tt
     else Thrown {| error := fst (f (hw w)) |},
     {| hw := snd (f (hw w));
        calls := calls w ++ [{| ev_call := c; ev_ret := fst (f (hw w)) |}] |}).
Proof.
  unfold GPIO_CHECK_THROW, driver_call, id.
  destruct (f (hw w)) as [st h]. simpl.
  destruct (st =? ESP_OK); reflexivity.
Qed.

Lemma checked_call_decided c (f : HW -> esp_err_t * HW) :
  decided_by_driver (GPIO_CHECK_THROW (driver_call c id f)) c.
Proof.
  intros w. exists (fst (f (hw w))). rewrite checked_call_run. split; reflexivity.
Qed.

Lemma no_reset_among_directions pin rest :
  Forall (fun e => exists m, ev_call e = call_gpio_set_direction pin m) rest ->
  filter is_reset rest = [].
Proof.
  induction 1 as [|e rest [m Hm] _ IH]; simpl; [reflexivity|].
  unfold is_reset at 1. rewrite Hm. exact IH.
Qed.

(** The clauses of [ctor_protocol], from the shape of one run: the calls
    made are a reset and then direction calls, all but the last reported
    ESP_OK, and the last one either failed and was thrown, or programmed the
    target mode and let the object out. *)
Lemma protocol_of_run {A} (r : Outcome A) (num_of : A -> GPIONum) num mode
    st rest oks e :
  {| ev_call := call_gpio_reset_pin (get_value num); ev_ret := st |} :: rest
  = oks ++ [e] ->
  Forall (fun e => exists m,
              ev_call e = call_gpio_set_direction (get_value num) m) rest ->
  Forall reported_ok oks ->
  (ev_ret e <> ESP_OK /\ r = Thrown {| error := ev_ret e |})
  \/ (e = {| ev_call := call_gpio_set_direction (get_value num) mode;
             ev_ret := ESP_OK |}
      /\ exists obj, r = Returned obj /\ num_of obj = num) ->
  let evs :=
    {| ev_call := call_gpio_reset_pin (get_value num); ev_ret := st |} :: rest
  in
  (exists st rest,
      evs = {| ev_call := call_gpio_reset_pin (get_value num);
               ev_ret := st |} :: rest
      /\ count_events is_reset evs = 1%nat
      /\ Forall (fun e => exists m,
                     ev_call e
                     = call_gpio_set_direction (get_value num) m) rest)
  /\ (forall e, In e evs -> ev_ret e <> ESP_OK ->
        r = Thrown {| error := ev_ret e |}
        /\ exists pre, evs = pre ++ [e] /\ Forall reported_ok pre)
  /\ (Forall reported_ok evs ->
        exists obj pre,
          r = Returned obj /\ num_of obj = num
          /\ evs = pre ++ [{| ev_call := call_gpio_set_direction
                                           (get_value num) mode;
                              ev_ret := ESP_OK |}])
  /\ (is_returned r = true -> Forall reported_ok evs).
Proof.
  intros Hshape Hdirs Hoks Hlast evs. subst evs.
  split; [|split; [|split]].
  - exists st, rest. split; [reflexivity | split; [|exact Hdirs]].
    unfold count_events. cbn [filter]. unfold is_reset at 1. cbn [ev_call].
    now rewrite (no_reset_among_directions _ _ Hdirs).
  - intros e' Hin Hne. rewrite Hshape in Hin |- *.
    apply in_app_or in Hin. destruct Hin as [Hin|[<-|[]]].
    + rewrite Forall_forall in Hoks. now elim Hne; apply Hoks.
    + destruct Hlast as [[_ Hr]|[-> _]]; [|now elim Hne].
      split; [exact Hr | exists oks; split; [reflexivity | exact Hoks]].
  - intros Hall. rewrite Hshape in Hall |- *. apply Forall_app in Hall.
    destruct Hall as [_ Hall]. apply Forall_inv in Hall.
    destruct Hlast as [[Hne _]|[-> [obj [Hr Hnum]]]]; [now elim Hne|].
    exists obj, oks. split; [exact Hr | split; [exact Hnum | reflexivity]].
  - intros Hret. rewrite Hshape. apply Forall_app. split; [exact Hoks|].
    destruct Hlast as [[_ ->]|[-> _]]; [discriminate|].
    constructor; [reflexivity | constructor].
Qed.

Ltac direction_calls :=
  repeat (constructor; [eexists; reflexivity|]); constructor.

Ltac all_reported_ok :=
  repeat (constructor; [reflexivity|]); constructor.

Lemma PinOutput_new_protocol :
  ctor_protocol PinOutput_new (fun o => gpio_num (PinOutput_base o))
    GPIO_MODE_OUTPUT.
Proof.
  intros num w. unfold PinOutput_new, GPIO_new, bind, ret, pin_of.
  rewrite checked_call_run. cbn [gpio_num].
  destruct (gpio_reset_pin (get_value num) (hw w)) as [st0 h1].
  cbn [fst snd]. destruct (Z.eqb_spec st0 ESP_OK) as [->|Hne0].
  - rewrite checked_call_run. cbn [hw calls gpio_num].
    destruct (gpio_set_direction (get_value num) GPIO_MODE_OUTPUT h1)
      as [st1 h2].
    cbn [fst snd]. destruct (Z.eqb_spec st1 ESP_OK) as [->|Hne1];
      cbn [fst snd calls]; rewrite <- app_assoc;
      (eexists; split; [reflexivity|]).
    + eapply (protocol_of_run _ _ num GPIO_MODE_OUTPUT _ _ [_]);
        [reflexivity | direction_calls | all_reported_ok |].
      right. split; [reflexivity | eexists; split; reflexivity].
    + eapply (protocol_of_run _ _ num GPIO_MODE_OUTPUT _ _ [_]);
        [reflexivity | direction_calls | all_reported_ok |].
      left. split; [exact Hne1 | reflexivity].
  - cbn [fst snd calls]. eexists; split; [reflexivity|].
    eapply (protocol_of_run _ _ num GPIO_MODE_OUTPUT _ _ []);
      [reflexivity | direction_calls | all_reported_ok |].
    left. split; [exact Hne0 | reflexivity].
Qed.

Lemma PinInput_new_protocol :
  ctor_protocol PinInput_new (fun i => gpio_num (PinInput_base i))
    GPIO_MODE_INPUT.
Proof.
  intros num w. unfold PinInput_new, GPIO_new, bind, ret, pin_of.
  rewrite checked_call_run. cbn [gpio_num].
  destruct (gpio_reset_pin (get_value num) (hw w)) as [st0 h1].
  cbn [fst snd]. destruct (Z.eqb_spec st0 ESP_OK) as [->|Hne0].
  - rewrite checked_call_run. cbn [hw calls gpio_num].
    destruct (gpio_set_direction (get_value num) GPIO_MODE_INPUT h1)
      as [st1 h2].
    cbn [fst snd]. destruct (Z.eqb_spec st1 ESP_OK) as [->|Hne1];
      cbn [fst snd calls]; rewrite <- app_assoc;
      (eexists; split; [reflexivity|]).
    + eapply (protocol_of_run _ _ num GPIO_MODE_INPUT _ _ [_]);
        [reflexivity | direction_calls | all_reported_ok |].
      right. split; [reflexivity | eexists; split; reflexivity].
    + eapply (protocol_of_run _ _ num GPIO_MODE_INPUT _ _ [_]);
        [reflexivity | direction_calls | all_reported_ok |].
      left. split; [exact Hne1 | reflexivity].
  - cbn [fst snd calls]. eexists; split; [reflexivity|].
    eapply (protocol_of_run _ _ num GPIO_MODE_INPUT _ _ []);
      [reflexivity | direction_calls | all_reported_ok |].
    left. split; [exact Hne0 | reflexivity].
Qed.

Lemma PinOutputInput_new_protocol :
  ctor_protocol PinOutputInput_new
    (fun oi => gpio_num (PinInput_base (PinOutputInput_base oi)))
    GPIO_MODE_INPUT_OUTPUT_OD.
Proof.
  intros num w.
  unfold PinOutputInput_new, PinInput_new, GPIO_new, bind, ret, pin_of.
  rewrite checked_call_run. cbn [gpio_num].
  destruct (gpio_reset_pin (get_value num) (hw w)) as [st0 h1].
  cbn [fst snd]. destruct (Z.eqb_spec st0 ESP_OK) as [->|Hne0].
  - rewrite checked_call_run. cbn [hw calls gpio_num].
    destruct (gpio_set_direction (get_value num) GPIO_MODE_INPUT h1)
      as [st1 h2].
    cbn [fst snd]. destruct (Z.eqb_spec st1 ESP_OK) as [->|Hne1].
    + rewrite checked_call_run. cbn [hw calls gpio_num PinInput_base].
      destruct (gpio_set_direction (get_value num)
                  GPIO_MODE_INPUT_OUTPUT_OD h2) as [st2 h3].
      cbn [fst snd]. destruct (Z.eqb_spec st2 ESP_OK) as [->|Hne2];
        cbn [fst snd calls]; rewrite <- !app_assoc;
        (eexists; split; [reflexivity|]).
      * eapply (protocol_of_run _ _ num GPIO_MODE_INPUT_OUTPUT_OD
                  _ _ [_; _]);
          [reflexivity | direction_calls | all_reported_ok |].
        right. split; [reflexivity | eexists; split; reflexivity].
      * eapply (protocol_of_run _ _ num GPIO_MODE_INPUT_OUTPUT_OD
                  _ _ [_; _]);
          [reflexivity | direction_calls | all_reported_ok |].
        left. split; [exact Hne2 | reflexivity].
    + cbn [fst snd calls]. rewrite <- app_assoc.
      eexists; split; [reflexivity|].
      eapply (protocol_of_run _ _ num GPIO_MODE_INPUT_OUTPUT_OD _ _ [_]);
        [reflexivity | direction_calls | all_reported_ok |].
      left. split; [exact Hne1 | reflexivity].
  - cbn [fst snd calls]. eexists; split; [reflexivity|].
    eapply (protocol_of_run _ _ num GPIO_MODE_INPUT_OUTPUT_OD _ _ []);
      [reflexivity | direction_calls | all_reported_ok |].
    left. split; [exact Hne0 | reflexivity].
Qed.

(** getDriveStrength(), in terms of what the driver answers. *)
Lemma GPIO_getDriveStrength_run this w :
  GPIO_getDriveStrength this w
  = let reply := fst (gpio_get_drive_capability (pin_of this) (hw w)) in
    let w' :=
      {| hw := snd (gpio_get_drive_capability (pin_of this) (hw w));
         calls := calls w
                  ++ [{| ev_call := call_gpio_get_drive_capability
                                      (pin_of this);
                         ev_ret := fst reply |}] |} in
    if fst reply =? ESP_OK
    then (GPIODriveStrength_new (to_uint32 (snd reply)), w')
    else (Thrown {| error := fst reply |}, w').
Proof.
  unfold GPIO_getDriveStrength, driver_call, bind, lift, GPIO_CHECK_THROW.
  destruct (gpio_get_drive_capability (pin_of this) (hw w)) as [[st code] h].
  cbn [fst snd]. destruct (st =? ESP_OK); reflexivity.
Qed.

Lemma issued_app (w : World HW) (evs : list Event) (h : HW) :
  issued w {| hw := h; calls := calls w ++ evs |} = evs.
Proof.
  unfold issued. cbn [calls]. rewrite skipn_app, skipn_all, Nat.sub_diag.
  reflexivity.
Qed.

Lemma to_uint32_range z : uint32 (to_uint32 z).
Proof. unfold uint32, to_uint32. apply Z.mod_pos_bound. reflexivity. Qed.

(** The PinInput and PinOutputInput constructors, in terms of what the
    driver answers. *)
Lemma PinInput_new_run num w :
  PinInput_new num w
  = let pin := get_value num in
    let r0 := gpio_reset_pin pin (hw w) in
    let e0 := {| ev_call := call_gpio_reset_pin pin; ev_ret := fst r0 |} in
    if fst r0 =? ESP_OK then
      let r1 := gpio_set_direction pin GPIO_MODE_INPUT (snd r0) in
      let e1 := {| ev_call := call_gpio_set_direction pin GPIO_MODE_INPUT;
                   ev_ret := fst r1 |} in
      (if fst r1 =? ESP_OK
       then Returned {| PinInput_base := {| gpio_num := num |} |}
       else Thrown {| error := fst r1 |},
       {| hw := snd r1; calls := calls w ++ [e0; e1] |})
    else (Thrown {| error := fst r0 |},
          {| hw := snd r0; calls := calls w ++ [e0] |}).
Proof.
  unfold PinInput_new, GPIO_new, bind, ret, pin_of.
  rewrite checked_call_run. cbn [gpio_num]. cbn zeta.
  destruct (fst (gpio_reset_pin (get_value num) (hw w)) =? ESP_OK);
    [|reflexivity].
  rewrite checked_call_run. cbn [hw calls gpio_num]. rewrite <- app_assoc.
  destruct (fst (gpio_set_direction (get_value num) GPIO_MODE_INPUT
                   (snd (gpio_reset_pin (get_value num) (hw w))))
            =? ESP_OK); reflexivity.
Qed.

Lemma PinOutputInput_new_run num w :
  PinOutputInput_new num w
  = match PinInput_new num w with
    | (Returned base, w1) =>
        let pin := get_value num in
        let r2 := gpio_set_direction pin GPIO_MODE_INPUT_OUTPUT_OD (hw w1) in
        let e2 :=
          {| ev_call := call_gpio_set_direction pin GPIO_MODE_INPUT_OUTPUT_OD;
             ev_ret := fst r2 |} in
        (if fst r2 =? ESP_OK
         then Returned {| PinOutputInput_base :=
                            {| PinInput_base := {| gpio_num := num |} |} |}
         else Thrown {| error := fst r2 |},
         {| hw := snd r2; calls := calls w1 ++ [e2] |})
    | (Thrown e, w1) => (Thrown e, w1)
    end.
Proof.
  unfold PinOutputInput_new, bind. rewrite PinInput_new_run. cbn zeta.
  destruct (fst (gpio_reset_pin (get_value num) (hw w)) =? ESP_OK);
    [|reflexivity].
  destruct (fst (gpio_set_direction (get_value num) GPIO_MODE_INPUT
                   (snd (gpio_reset_pin (get_value num) (hw w))))
            =? ESP_OK); [|reflexivity].
  rewrite checked_call_run. unfold ret, pin_of.
  cbn [hw calls gpio_num PinInput_base].
  destruct (fst (gpio_set_direction (get_value num) GPIO_MODE_INPUT_OUTPUT_OD
                   (snd (gpio_set_direction (get_value num) GPIO_MODE_INPUT
                           (snd (gpio_reset_pin (get_value num) (hw w))))))
            =? ESP_OK); reflexivity.
Qed.
Ltac status_case :=
  match goal with
  | Hne : ?st <> ESP_OK |- context [?st =? ESP_OK] =>
      destruct (Z.eqb_spec st ESP_OK); [now elim Hne|]
  | |- context [ESP_OK =? ESP_OK] => rewrite Z.eqb_refl
  end.

Lemma PinOutput_new_drives :
  reset_then_direction PinOutput_new
    (fun num => {| PinOutput_base := {| gpio_num := num |} |})
    GPIO_MODE_OUTPUT.
Proof.
  intros num w st0 h1 st1 h2 Hreset Hdir reset direction.
  subst reset direction.
  unfold PinOutput_new, GPIO_new, bind, ret, pin_of.
  rewrite checked_call_run. cbn [gpio_num]. rewrite Hreset. cbn [fst snd].
  split; [|split].
  - intros Hne0. status_case. reflexivity.
  - intros -> Hne1. status_case. rewrite checked_call_run.
    cbn [hw calls gpio_num]. rewrite Hdir. cbn [fst snd]. status_case.
    now rewrite <- app_assoc.
  - intros -> ->. status_case. rewrite checked_call_run.
    cbn [hw calls gpio_num]. rewrite Hdir. cbn [fst snd]. status_case.
    now rewrite <- app_assoc.
Qed.

Lemma PinInput_new_drives :
  reset_then_direction PinInput_new
    (fun num => {| PinInput_base := {| gpio_num := num |} |})
    GPIO_MODE_INPUT.
Proof.
  intros num w st0 h1 st1 h2 Hreset Hdir reset direction.
  subst reset direction. rewrite PinInput_new_run. cbn zeta.
  rewrite Hreset. cbn [fst snd]. split; [|split].
  - intros Hne0. status_case. reflexivity.
  - intros -> Hne1. status_case. rewrite Hdir. cbn [fst snd]. status_case.
    reflexivity.
  - intros -> ->. status_case. rewrite Hdir. cbn [fst snd]. status_case.
    reflexivity.
Qed.

Lemma PinOutputInput_new_drives :
  reset_then_two_directions PinOutputInput_new
    (fun num =>
       {| PinOutputInput_base :=
            {| PinInput_base := {| gpio_num := num |} |} |})
    GPIO_MODE_INPUT GPIO_MODE_INPUT_OUTPUT_OD.
Proof.
  intros num w st0 h1 st1 h2 st2 h3 Hreset Hfirst Hsecond reset first second.
  subst reset first second.
  rewrite PinOutputInput_new_run, PinInput_new_run. cbn zeta.
  rewrite Hreset. cbn [fst snd]. split; [|split; [|split]].
  - intros Hne0. status_case. reflexivity.
  - intros -> Hne1. status_case. rewrite Hfirst. cbn [fst snd].
    status_case. reflexivity.
  - intros -> -> Hne2. status_case. rewrite Hfirst. cbn [fst snd].
    status_case. cbn [hw calls]. rewrite Hsecond. cbn [fst snd].
    status_case. now rewrite <- app_assoc.
  - intros -> -> ->. status_case. rewrite Hfirst. cbn [fst snd].
    status_case. cbn [hw calls]. rewrite Hsecond. cbn [fst snd].
    status_case. now rewrite <- app_assoc.
Qed.
End Runs.

(** C2. Each of the three configuration constructors, on every pin number and
    whatever the driver answers, first makes exactly one pin-reset call and
    then programs the direction, ending with its target mode; a reset or
    direction call that reports a status other than ESP_OK ends the
    construction at once with an exception carrying that status, and an
    object is produced only when every call reported ESP_OK.  The calls are
    the driver's own: gpio_reset_pin runs on the hardware of the world, each
    gpio_set_direction on the hardware that the call before it left, the
    statuses logged and thrown are the ones these functions return, and the
    hardware afterwards is what the last call made left. *)
Theorem constructors_reset_then_program_direction
    (hdr : DriverHeader) (HW : Type) (drv : Driver HW) :
  (ctor_protocol PinOutput_new (fun o => gpio_num (PinOutput_base o))
     GPIO_MODE_OUTPUT
   /\ ctor_protocol PinInput_new (fun i => gpio_num (PinInput_base i))
        GPIO_MODE_INPUT
   /\ ctor_protocol PinOutputInput_new
        (fun oi => gpio_num (PinInput_base (PinOutputInput_base oi)))
        GPIO_MODE_INPUT_OUTPUT_OD)
  /\ reset_then_direction PinOutput_new
       (fun num => {| PinOutput_base := {| gpio_num := num |} |})
       GPIO_MODE_OUTPUT
  /\ reset_then_direction PinInput_new
       (fun num => {| PinInput_base := {| gpio_num := num |} |})
       GPIO_MODE_INPUT
  /\ reset_then_two_directions PinOutputInput_new
       (fun num =>
          {| PinOutputInput_base :=
               {| PinInput_base := {| gpio_num := num |} |} |})
       GPIO_MODE_INPUT GPIO_MODE_INPUT_OUTPUT_OD.
Proof.
  split; [split; [|split] | split; [|split]].
  - apply PinOutput_new_protocol.
  - apply PinInput_new_protocol.
  - apply PinOutputInput_new_protocol.
  - apply PinOutput_new_drives.
  - apply PinInput_new_drives.
  - apply PinOutputInput_new_drives.
Qed.

(** C3. For a pin number [p] that is reserved on the target or out of range,
    the attempt to construct a PinOutput, PinInput or PinOutputInput over it
    fails while the pin number is validated, with ESP_ERR_INVALID_ARG: no
    driver call is made and the world, hardware and call log, is the one
    before the attempt. *)
Theorem configure_unusable_pin_makes_no_call
    (hdr : DriverHeader) (cfg : BuildConfig) (HW : Type) (drv : Driver HW)
    (p : Z) (w : World HW)
    (Herr : error_codes_wf) (Hmax : uint32 GPIO_NUM_MAX) (Hp : uint32 p)
    (Hbad : In p INVALID_GPIOS \/ GPIO_NUM_MAX <= p) :
  configure PinOutput_new p w
  = (Thrown {| error := ESP_ERR_INVALID_ARG |}, w)
  /\ configure PinInput_new p w
     = (Thrown {| error := ESP_ERR_INVALID_ARG |}, w)
  /\ configure PinOutputInput_new p w
     = (Thrown {| error := ESP_ERR_INVALID_ARG |}, w)
  /\ issued w (snd (configure PinOutput_new p w)) = []
  /\ issued w (snd (configure PinInput_new p w)) = []
  /\ issued w (snd (configure PinOutputInput_new p w)) = [].
Proof.
  assert (Hnu : ~ usable_pin p).
  { unfold usable_pin. intros [Hlt Hnin]. destruct Hbad; [tauto | lia]. }
  unfold configure, bind, lift.
  rewrite (GPIONum_new_unusable p Herr Hmax Hnu). cbn [snd].
  unfold issued. rewrite skipn_all. repeat split; reflexivity.
Qed.

(** C6. getLevel() on any PinInput, whatever gpio_get_level returns, throws
    nothing and returns HIGH or LOW: HIGH when the driver's level is not
    zero, LOW when it is. *)
Theorem PinInput_getLevel_never_fails
    (HW : Type) (drv : Driver HW) (this : PinInput) (w : World HW) :
  exists level,
    fst (PinInput_getLevel this w) = Returned level
    /\ (level = HIGH \/ level = LOW)
    /\ (level = HIGH
        <-> fst (gpio_get_level (pin_of (PinInput_base this)) (hw w)) <> 0)
    /\ (level = LOW
        <-> fst (gpio_get_level (pin_of (PinInput_base this)) (hw w)) = 0).
Proof.
  unfold PinInput_getLevel, driver_call, id.
  destruct (gpio_get_level (pin_of (PinInput_base this)) (hw w)) as [lv h].
  cbn [fst]. destruct (Z.eqb_spec lv 0) as [->|Hne]; cbn [negb fst].
  - exists LOW. repeat split; try tauto; try congruence; now right.
  - exists HIGH. repeat split; try tauto; try congruence; now left.
Qed.

(** C8. On the same pin number, PinOutputInput::setFloating() and
    PinOutput::setHigh() are the same operation: each makes the single
    driver call gpio_set_level(pin, 1), leaves the same world, and throws
    the status of that call exactly when it is not ESP_OK. *)
Theorem setFloating_is_setHigh
    (hdr : DriverHeader) (HW : Type) (drv : Driver HW)
    (o : PinOutput) (oi : PinOutputInput) (w : World HW)
    (Hsame : get_value (gpio_num (PinOutput_base o))
             = get_value
                 (gpio_num (PinInput_base (PinOutputInput_base oi)))) :
  PinOutputInput_setFloating oi w = PinOutput_setHigh o w
  /\ decided_by_driver (PinOutputInput_setFloating oi)
       (call_gpio_set_level (pin_of (PinOutput_base o)) 1)
  /\ decided_by_driver (PinOutput_setHigh o)
       (call_gpio_set_level (pin_of (PinOutput_base o)) 1).
Proof.
  unfold PinOutputInput_setFloating, PinOutput_setHigh, pin_of.
  rewrite <- Hsame. split; [reflexivity | split; apply checked_call_decided].
Qed.

(** C9. getDriveStrength() hands the code read back from the driver to the
    checking constructor: when gpio_get_drive_capability reports ESP_OK but
    a code at or above GPIO_DRIVE_CAP_MAX, getDriveStrength() throws a
    GPIOException (ESP_ERR_INVALID_ARG) after that one driver call; and a
    drive strength it returns always holds a code below GPIO_DRIVE_CAP_MAX,
    the one the driver reported. *)
Theorem getDriveStrength_checks_reported_code
    (hdr : DriverHeader) (HW : Type) (drv : Driver HW)
    (this : GPIO) (w : World HW)
    (Herr : error_codes_wf) (Hmax : uint32 GPIO_DRIVE_CAP_MAX) :
  (forall code h,
      gpio_get_drive_capability (pin_of this) (hw w) = ((ESP_OK, code), h) ->
      uint32 code -> GPIO_DRIVE_CAP_MAX <= code ->
      GPIO_getDriveStrength this w
      = (Thrown {| error := ESP_ERR_INVALID_ARG |},
         {| hw := h;
            calls := calls w
                     ++ [{| ev_call := call_gpio_get_drive_capability
                                         (pin_of this);
                            ev_ret := ESP_OK |}] |}))
  /\ (forall d w',
         GPIO_getDriveStrength this w = (Returned d, w') ->
         0 <= get_value d < GPIO_DRIVE_CAP_MAX
         /\ exists code,
             gpio_get_drive_capability (pin_of this) (hw w)
             = ((ESP_OK, code), hw w')
             /\ get_value d = to_uint32 code).
Proof.
  split.
  - intros code h Hreply Hcode Hge. rewrite GPIO_getDriveStrength_run.
    rewrite Hreply. cbn [fst snd]. rewrite Z.eqb_refl.
    rewrite (to_uint32_small code Hcode).
    now rewrite (GPIODriveStrength_new_out_of_range code Herr Hmax Hge).
  - intros d w' Hrun. rewrite GPIO_getDriveStrength_run in Hrun.
    destruct (gpio_get_drive_capability (pin_of this) (hw w))
      as [[st code] h].
    cbn [fst snd] in Hrun.
    destruct (Z.eqb_spec st ESP_OK) as [->|Hne]; [|discriminate].
    destruct (isValidDriveStrengthPin_cases (to_uint32 code) Hmax)
      as [[_ Hlt]|[_ Hge]].
    + rewrite (GPIODriveStrength_new_in_range _ Hmax Hlt) in Hrun.
      injection Hrun as <- <-. cbn [get_value GPIODriveStrength_strong
        GPIODriveStrength_value hw].
      pose proof (to_uint32_range code) as Hr. unfold uint32 in Hr.
      split; [lia | exists code; split; reflexivity].
    + rewrite (GPIODriveStrength_new_out_of_range _ Herr Hmax Hge) in Hrun.
      discriminate.
Qed.

(** C10. Constructing a PinOutputInput makes its driver calls in the order
    gpio_reset_pin, gpio_set_direction to GPIO_MODE_INPUT (the whole of what
    the inherited PinInput constructor does), gpio_set_direction to
    GPIO_MODE_INPUT_OUTPUT_OD, and stops only after a call that reports a
    failure.  A construction that succeeds has made exactly these three
    calls; so has every run in which the reset and the input-mode call
    report ESP_OK: there the direction is programmed twice, the world the
    PinInput constructor leaves is the intermediate one, and the third call
    meets the hardware as the input-mode call left it. *)
Theorem PinOutputInput_new_makes_three_calls
    (hdr : DriverHeader) (HW : Type) (drv : Driver HW)
    (num : GPIONum) (w : World HW) :
  let pin := get_value num in
  let sequence :=
    [call_gpio_reset_pin pin;
     call_gpio_set_direction pin GPIO_MODE_INPUT;
     call_gpio_set_direction pin GPIO_MODE_INPUT_OUTPUT_OD] in
  let reset := {| ev_call := call_gpio_reset_pin pin; ev_ret := ESP_OK |} in
  let input :=
    {| ev_call := call_gpio_set_direction pin GPIO_MODE_INPUT;
       ev_ret := ESP_OK |} in
  let w' := snd (PinOutputInput_new num w) in
  (exists n, (1 <= n <= 3)%nat
             /\ map ev_call (issued w w') = firstn n sequence)
  /\ (is_returned (fst (PinOutputInput_new num w)) = true ->
      map ev_call (issued w w') = sequence
      /\ Forall reported_ok (issued w w'))
  /\ (forall h1 h2,
         gpio_reset_pin pin (hw w) = (ESP_OK, h1) ->
         gpio_set_direction pin GPIO_MODE_INPUT h1 = (ESP_OK, h2) ->
         PinInput_new num w
         = (Returned {| PinInput_base := {| gpio_num := num |} |},
            {| hw := h2; calls := calls w ++ [reset; input] |})
         /\ issued w w'
            = [reset; input;
               {| ev_call := call_gpio_set_direction pin
                               GPIO_MODE_INPUT_OUTPUT_OD;
                  ev_ret := fst (gpio_set_direction pin
                                   GPIO_MODE_INPUT_OUTPUT_OD h2) |}]
         /\ hw w' = snd (gpio_set_direction pin GPIO_MODE_INPUT_OUTPUT_OD h2)
         /\ length (issued w w') = 3%nat
         /\ count_events is_reset (issued w w') = 1%nat
         /\ count_events is_set_direction (issued w w') = 2%nat).
Proof.
  intros pin sequence reset input w'. subst w'.
  rewrite PinOutputInput_new_run, PinInput_new_run. cbn zeta. fold pin.
  destruct (gpio_reset_pin pin (hw w)) as [st0 h1'].
  cbn [fst snd]. destruct (Z.eqb_spec st0 ESP_OK) as [->|Hne0].
  - destruct (gpio_set_direction pin GPIO_MODE_INPUT h1') as [st1 h2']
      eqn:Einput.
    cbn [fst snd]. destruct (Z.eqb_spec st1 ESP_OK) as [->|Hne1].
    + cbn [hw calls snd fst]. rewrite <- app_assoc. rewrite issued_app.
      split; [exists 3%nat; split; [lia | reflexivity]|].
      split.
      * destruct (Z.eqb_spec
                    (fst (gpio_set_direction pin GPIO_MODE_INPUT_OUTPUT_OD
                            h2')) ESP_OK) as [Hok|Hne2];
          [|discriminate].
        intros _. split; [reflexivity|].
        repeat (constructor; [first [reflexivity | exact Hok]|]).
        constructor.
      * intros h1 h2 Hreset Hinput.
        injection Hreset as <-. rewrite Einput in Hinput.
        injection Hinput as <-. repeat split; reflexivity.
    + cbn [hw calls snd fst]. rewrite issued_app.
      split; [exists 2%nat; split; [lia | reflexivity]|].
      split; [discriminate|].
      intros h1 h2 Hreset Hinput. injection Hreset as <-.
      rewrite Einput in Hinput. injection Hinput as Hst _. now elim Hne1.
  - cbn [hw calls snd fst]. rewrite issued_app.
    split; [exists 1%nat; split; [lia | reflexivity]|].
    split; [discriminate|].
    intros h1 h2 Hreset. injection Hreset as Hst _. now elim Hne0.
Qed.

(** ** The invariant of the validated types *)

Section Invariant.
Context {hdr : DriverHeader} {cfg : BuildConfig}.
Context {HW : Type} {drv : Driver HW}.

Lemma GPIONum_instance_valid n :
  error_codes_wf -> uint32 GPIO_NUM_MAX ->
  GPIONum_instance n -> valid_GPIONum n.
Proof.
  intros Herr Hmax [p n' Hp Hnew].
  destruct (isValidPin_cases p Hmax) as [[_ Hu]|[_ Hnu]].
  - rewrite (GPIONum_new_usable p Hmax Hu) in Hnew. injection Hnew as <-.
    split; [exact Hp | exact Hu].
  - rewrite (GPIONum_new_unusable p Herr Hmax Hnu) in Hnew. discriminate.
Qed.

Lemma GPIODriveStrength_new_valid s d :
  error_codes_wf -> uint32 GPIO_DRIVE_CAP_MAX -> uint32 s ->
  GPIODriveStrength_new s = Returned d -> valid_GPIODriveStrength d.
Proof.
  intros Herr Hmax Hs Hnew.
  destruct (isValidDriveStrengthPin_cases s Hmax) as [[_ Hlt]|[_ Hge]].
  - rewrite (GPIODriveStrength_new_in_range s Hmax Hlt) in Hnew.
    injection Hnew as <-. unfold valid_GPIODriveStrength, uint32 in *.
    simpl. lia.
  - rewrite (GPIODriveStrength_new_out_of_range s Herr Hmax Hge) in Hnew.
    discriminate.
Qed.

Lemma GPIODriveStrength_instance_valid d :
  error_codes_wf -> drive_caps_wf ->
  GPIODriveStrength_instance d -> valid_GPIODriveStrength d.
Proof.
  intros Herr [[Hc32 _] [Hclt Hmax]] Hinst.
  destruct Hinst as [s d Hs Hnew | f d Hin Hf | this w d w' Hrun].
  - now apply (GPIODriveStrength_new_valid s).
  - assert (Hcode : exists c,
               In c [GPIO_DRIVE_CAP_0; GPIO_DRIVE_CAP_1; GPIO_DRIVE_CAP_2;
                     GPIO_DRIVE_CAP_3]
               /\ f = GPIODriveStrength_new (to_uint32 c)).
    { simpl in Hin. simpl.
      destruct Hin as [<-|[<-|[<-|[<-|[<-|[]]]]]]; eexists;
        (split; [|reflexivity]); tauto. }
    destruct Hcode as [c [Hc ->]].
    rewrite Forall_forall in Hc32, Hclt.
    apply (GPIODriveStrength_new_valid (to_uint32 c)); try assumption.
    apply to_uint32_range.
  - rewrite GPIO_getDriveStrength_run in Hrun. cbn zeta in Hrun.
    destruct (fst (fst (gpio_get_drive_capability (pin_of this) (hw w)))
              =? ESP_OK); [|discriminate].
    injection Hrun as Hnew _.
    apply (GPIODriveStrength_new_valid _ d Herr Hmax (to_uint32_range _) Hnew).
Qed.

Lemma GPIOPullMode_instance_valid m :
  pull_modes_wf -> GPIOPullMode_instance m -> valid_GPIOPullMode m.
Proof.
  intros [H32 _] [f m' Hin Hf]. rewrite Forall_forall in H32.
  unfold valid_GPIOPullMode. simpl in Hin.
  destruct Hin as [<-|[<-|[<-|[]]]];
    unfold FLOATING, PULLUP, PULLDOWN, GPIOPullMode_new in Hf;
    injection Hf as <-; simpl; rewrite to_uint32_small;
    try (apply H32; simpl); tauto.
Qed.

Lemma GPIOWakeupIntrType_instance_valid t :
  intr_types_wf ->
  GPIOWakeupIntrType_instance t -> valid_GPIOWakeupIntrType t.
Proof.
  intros [H32 _] [f t' Hin Hf]. rewrite Forall_forall in H32.
  unfold valid_GPIOWakeupIntrType. simpl in Hin.
  destruct Hin as [<-|[<-|[]]];
    unfold LOW_LEVEL, HIGH_LEVEL, GPIOWakeupIntrType_new in Hf;
    injection Hf as <-; simpl; rewrite to_uint32_small;
    try (apply H32; simpl); tauto.
Qed.

(** A constructor that follows the protocol returns an object holding the
    pin number it was given. *)
Lemma protocol_keeps_number {A} (ctor : GPIONum -> M HW A) num_of mode
    num w obj w' :
  ctor_protocol ctor num_of mode ->
  ctor num w = (Returned obj, w') -> num_of obj = num.
Proof.
  intros Hproto Hrun. destruct (Hproto num w) as [evs [_ [_ [_ [Hok Hret]]]]].
  rewrite Hrun in Hok, Hret. cbn [fst] in Hok, Hret.
  destruct (Hok (Hret eq_refl)) as [obj' [_ [Heq [Hnum _]]]].
  injection Heq as <-. exact Hnum.
Qed.

Lemma GPIO_instance_valid g :
  error_codes_wf -> uint32 GPIO_NUM_MAX ->
  GPIO_instance g -> valid_GPIONum (gpio_num g).
Proof.
  intros Herr Hmax Hinst.
  destruct Hinst as [num w o w' Hnum Hrun | num w i w' Hnum Hrun
                    | num w oi w' Hnum Hrun].
  - rewrite (protocol_keeps_number _ _ _ _ _ _ _
               PinOutput_new_protocol Hrun).
    now apply GPIONum_instance_valid.
  - rewrite (protocol_keeps_number _ _ _ _ _ _ _
               PinInput_new_protocol Hrun).
    now apply GPIONum_instance_valid.
  - rewrite (protocol_keeps_number _ _ _ _ _ _ _
               PinOutputInput_new_protocol Hrun).
    now apply GPIONum_instance_valid.
Qed.

Lemma methods_decided_by_driver : stored_number_not_rechecked.
Proof.
  unfold stored_number_not_rechecked.
  repeat split; intros; apply checked_call_decided.
Qed.
End Invariant.

(** C7. Every instance of a validated type that the interface can bring into
    existence holds a valid value: a GPIONum an in-range pin that is not
    reserved, a GPIODriveStrength a code below GPIO_DRIVE_CAP_MAX (also when
    read back from the driver), a GPIOPullMode and a GPIOWakeupIntrType one
    of the named codes; every pin object holds the valid GPIONum it was
    built from; and no method checks the stored number again: the driver's
    status alone decides its outcome. *)
Theorem validated_instances_hold_valid_values
    (hdr : DriverHeader) (cfg : BuildConfig) (HW : Type) (drv : Driver HW)
    (Herr : error_codes_wf) (Hmax : uint32 GPIO_NUM_MAX)
    (Hcaps : drive_caps_wf) (Hpull : pull_modes_wf)
    (Hintr : intr_types_wf) :
  (forall n, GPIONum_instance n -> valid_GPIONum n)
  /\ (forall d, GPIODriveStrength_instance d -> valid_GPIODriveStrength d)
  /\ (forall m, GPIOPullMode_instance m -> valid_GPIOPullMode m)
  /\ (forall t, GPIOWakeupIntrType_instance t -> valid_GPIOWakeupIntrType t)
  /\ (forall g, GPIO_instance g -> valid_GPIONum (gpio_num g))
  /\ stored_number_not_rechecked.
Proof.
  split; [|split; [|split; [|split; [|split]]]].
  - intros n. now apply GPIONum_instance_valid.
  - intros d. now apply GPIODriveStrength_instance_valid.
  - intros m. now apply GPIOPullMode_instance_valid.
  - intros t. now apply GPIOWakeupIntrType_instance_valid.
  - intros g. now apply GPIO_instance_valid.
  - apply methods_decided_by_driver.
Qed.

(** ** Runs on the illustrative platform *)

Section Illustration.
#[local] Existing Instance illustrative_header.
#[local] Existing Instance linux_config.

Lemma illustrative_error_codes : error_codes_wf.
Proof. discriminate. Defined.

Lemma illustrative_num_max : uint32 GPIO_NUM_MAX.
Proof. split; [discriminate | reflexivity]. Defined.

Lemma illustrative_cap_max : uint32 GPIO_DRIVE_CAP_MAX.
Proof. split; [discriminate | reflexivity]. Defined.

Lemma uint32_3 : uint32 3.
Proof. split; [discriminate | reflexivity]. Defined.

Lemma uint32_24 : uint32 24.
Proof. split; [discriminate | reflexivity]. Defined.

Ltac small_codes :=
  repeat (constructor; [split; [discriminate | reflexivity]|]); constructor.

Ltac distinct_codes :=
  repeat (constructor; [simpl; intuition discriminate|]); constructor.

Lemma illustrative_drive_caps : drive_caps_wf.
Proof.
  split; [split; [small_codes | distinct_codes]|].
  split; [|exact illustrative_cap_max].
  repeat (constructor; [reflexivity|]); constructor.
Defined.

Lemma illustrative_pull_modes : pull_modes_wf.
Proof. split; [small_codes | distinct_codes]. Defined.

Lemma illustrative_intr_types : intr_types_wf.
Proof. split; [small_codes | distinct_codes]. Defined.

(** Pin 3 is accepted, pin 24 is reserved, pin 25 does not exist. *)
Example GPIONum_3 : GPIONum_new 3 = Returned {| GPIONum_value := 3 |}.
Proof. reflexivity. Qed.

Example GPIONum_24 : GPIONum_new 24 = Thrown {| error := 258 |}.
Proof. reflexivity. Qed.

Example GPIONum_25 : GPIONum_new 25 = Thrown {| error := 258 |}.
Proof. reflexivity. Qed.

(** A reset that fails ends the construction after one call. *)
Example PinOutput_reset_fails :
  configure PinOutput_new 3 (scripted_board [-1] 2)
  = (Thrown {| error := -1 |},
     {| hw := hw fresh_board;
        calls := [{| ev_call := call_gpio_reset_pin 3; ev_ret := -1 |}] |}).
Proof. reflexivity. Qed.

(** A direction call that fails ends it after two. *)
Example PinInput_direction_fails :
  configure PinInput_new 3 (scripted_board [0; 259] 2)
  = (Thrown {| error := 259 |},
     {| hw := hw fresh_board;
        calls := [{| ev_call := call_gpio_reset_pin 3; ev_ret := 0 |};
                  {| ev_call := call_gpio_set_direction 3 1;
                     ev_ret := 259 |}] |}).
Proof. reflexivity. Qed.

(** Between the second and the third call of the PinOutputInput constructor
    the pin is programmed as an input; after the third, as open drain. *)
Example PinOutputInput_passes_through_input :
  mock_direction (hw (snd (configure PinInput_new 3 fresh_board))) = [(3, 1)]
  /\ mock_direction (hw (snd (configure PinOutputInput_new 3 fresh_board)))
     = [(3, 7)].
Proof. split; reflexivity. Qed.

(** A driver that reports ESP_OK and the code 7 makes getDriveStrength()
    throw. *)
Example getDriveStrength_code_7 :
  fst (GPIO_getDriveStrength {| gpio_num := {| GPIONum_value := 3 |} |}
         (scripted_board [] 7))
  = Thrown {| error := 258 |}.
Proof. reflexivity. Qed.

Lemma GPIONum_new_succeeds_iff_witness :
  (error_codes_wf /\ uint32 GPIO_NUM_MAX /\ uint32 3)
  /\ ((exists n, GPIONum_new 3 = Returned n) <-> usable_pin 3)
  /\ (forall n, GPIONum_new 3 = Returned n -> get_value n = 3)
  /\ (~ usable_pin 3 ->
      GPIONum_new 3 = Thrown {| error := ESP_ERR_INVALID_ARG |}
      /\ is_returned (GPIONum_new 3) = false).
Proof.
  split.
  - exact (conj illustrative_error_codes (conj illustrative_num_max uint32_3)).
  - exact (GPIONum_new_succeeds_iff illustrative_header linux_config 3
             illustrative_error_codes illustrative_num_max uint32_3).
Defined.

Lemma GPIODriveStrength_new_succeeds_iff_witness :
  (error_codes_wf /\ uint32 GPIO_DRIVE_CAP_MAX /\ uint32 3)
  /\ ((exists d, GPIODriveStrength_new 3 = Returned d)
      <-> 3 < GPIO_DRIVE_CAP_MAX)
  /\ (forall d, GPIODriveStrength_new 3 = Returned d -> get_value d = 3)
  /\ (GPIO_DRIVE_CAP_MAX <= 3 ->
      GPIODriveStrength_new 3 = Thrown {| error := ESP_ERR_INVALID_ARG |}
      /\ is_returned (GPIODriveStrength_new 3) = false).
Proof.
  split.
  - exact (conj illustrative_error_codes
             (conj illustrative_cap_max uint32_3)).
  - exact (proj1 GPIODriveStrength_new_succeeds_iff illustrative_header 3
             illustrative_error_codes illustrative_cap_max uint32_3).
Defined.

Lemma configure_unusable_pin_makes_no_call_witness :
  (error_codes_wf /\ uint32 GPIO_NUM_MAX /\ uint32 24
   /\ (In 24 INVALID_GPIOS \/ GPIO_NUM_MAX <= 24))
  /\ configure PinOutput_new 24 fresh_board
     = (Thrown {| error := ESP_ERR_INVALID_ARG |}, fresh_board)
  /\ configure PinInput_new 24 fresh_board
     = (Thrown {| error := ESP_ERR_INVALID_ARG |}, fresh_board)
  /\ configure PinOutputInput_new 24 fresh_board
     = (Thrown {| error := ESP_ERR_INVALID_ARG |}, fresh_board)
  /\ issued fresh_board (snd (configure PinOutput_new 24 fresh_board)) = []
  /\ issued fresh_board (snd (configure PinInput_new 24 fresh_board)) = []
  /\ issued fresh_board (snd (configure PinOutputInput_new 24 fresh_board))
     = [].
Proof.
  assert (Hbad : In 24 INVALID_GPIOS \/ GPIO_NUM_MAX <= 24)
    by (left; left; reflexivity).
  split.
  - exact (conj illustrative_error_codes
             (conj illustrative_num_max (conj uint32_24 Hbad))).
  - exact (configure_unusable_pin_makes_no_call illustrative_header
             linux_config MockHW mock_driver 24 fresh_board
             illustrative_error_codes illustrative_num_max uint32_24 Hbad).
Defined.

Lemma factories_succeed_and_differ_witness :
  (drive_caps_wf /\ pull_modes_wf /\ intr_types_wf)
  /\ (exists weak less_weak medium strongest,
         WEAK = Returned weak /\ LESS_WEAK = Returned less_weak
         /\ MEDIUM = Returned medium /\ STRONGEST = Returned strongest
         /\ sv_neq weak less_weak = true /\ sv_neq weak medium = true
         /\ sv_neq weak strongest = true /\ sv_neq less_weak medium = true
         /\ sv_neq less_weak strongest = true
         /\ sv_neq medium strongest = true
         /\ DEFAULT = Returned medium
         /\ forall dflt, DEFAULT = Returned dflt -> sv_eq dflt medium = true)
  /\ (exists floating pullup pulldown,
         FLOATING = Returned floating /\ PULLUP = Returned pullup
         /\ PULLDOWN = Returned pulldown
         /\ sv_neq floating pullup = true /\ sv_neq floating pulldown = true
         /\ sv_neq pullup pulldown = true)
  /\ (exists low_level high_level,
         LOW_LEVEL = Returned low_level /\ HIGH_LEVEL = Returned high_level
         /\ get_value low_level <> get_value high_level).
Proof.
  split.
  - exact (conj illustrative_drive_caps
             (conj illustrative_pull_modes illustrative_intr_types)).
  - exact (factories_succeed_and_differ illustrative_header
             illustrative_drive_caps illustrative_pull_modes
             illustrative_intr_types).
Defined.

Lemma validated_instances_hold_valid_values_witness :
  (error_codes_wf /\ uint32 GPIO_NUM_MAX /\ drive_caps_wf /\ pull_modes_wf
   /\ intr_types_wf)
  /\ (forall n, GPIONum_instance n -> valid_GPIONum n)
  /\ (forall d,
         GPIODriveStrength_instance (HW := MockHW) d ->
         valid_GPIODriveStrength d)
  /\ (forall m, GPIOPullMode_instance m -> valid_GPIOPullMode m)
  /\ (forall t, GPIOWakeupIntrType_instance t -> valid_GPIOWakeupIntrType t)
  /\ (forall g, GPIO_instance (HW := MockHW) g -> valid_GPIONum (gpio_num g))
  /\ stored_number_not_rechecked (HW := MockHW).
Proof.
  split.
  - exact (conj illustrative_error_codes
             (conj illustrative_num_max
                (conj illustrative_drive_caps
                   (conj illustrative_pull_modes illustrative_intr_types)))).
  - exact (validated_instances_hold_valid_values illustrative_header
             linux_config MockHW mock_driver illustrative_error_codes
             illustrative_num_max illustrative_drive_caps
             illustrative_pull_modes illustrative_intr_types).
Defined.

Lemma setFloating_is_setHigh_witness :
  let o := {| PinOutput_base := pin3 |} in
  let oi := {| PinOutputInput_base := {| PinInput_base := pin3 |} |} in
  get_value (gpio_num (PinOutput_base o))
  = get_value (gpio_num (PinInput_base (PinOutputInput_base oi)))
  /\ PinOutputInput_setFloating oi fresh_board
     = PinOutput_setHigh o fresh_board
  /\ decided_by_driver (PinOutputInput_setFloating oi)
       (call_gpio_set_level (pin_of (PinOutput_base o)) 1)
  /\ decided_by_driver (PinOutput_setHigh o)
       (call_gpio_set_level (pin_of (PinOutput_base o)) 1).
Proof.
  intros o oi. split.
  - reflexivity.
  - exact (setFloating_is_setHigh illustrative_header MockHW mock_driver
             o oi fresh_board eq_refl).
Defined.

Lemma getDriveStrength_checks_reported_code_witness :
  (error_codes_wf /\ uint32 GPIO_DRIVE_CAP_MAX)
  /\ (forall code h,
         gpio_get_drive_capability (pin_of pin3)
           (hw (scripted_board [] 7))
         = ((ESP_OK, code), h) ->
         uint32 code -> GPIO_DRIVE_CAP_MAX <= code ->
         GPIO_getDriveStrength pin3 (scripted_board [] 7)
         = (Thrown {| error := ESP_ERR_INVALID_ARG |},
            {| hw := h;
               calls := calls (scripted_board [] 7)
                        ++ [{| ev_call := call_gpio_get_drive_capability
                                            (pin_of pin3);
                               ev_ret := ESP_OK |}] |}))
  /\ (forall d w',
         GPIO_getDriveStrength pin3 (scripted_board [] 7) = (Returned d, w')
         -> 0 <= get_value d < GPIO_DRIVE_CAP_MAX
            /\ exists code,
                gpio_get_drive_capability (pin_of pin3)
                  (hw (scripted_board [] 7))
                = ((ESP_OK, code), hw w')
                /\ get_value d = to_uint32 code).
Proof.
  split.
  - exact (conj illustrative_error_codes illustrative_cap_max).
  - exact (getDriveStrength_checks_reported_code illustrative_header MockHW
             mock_driver pin3 (scripted_board [] 7)
             illustrative_error_codes illustrative_cap_max).
Defined.

(** The board scripted above does report ESP_OK and a code, 7, that
    is at or above GPIO_DRIVE_CAP_MAX. *)
Example scripted_board_reports_7 :
  gpio_get_drive_capability (pin_of pin3) (hw (scripted_board [] 7))
  = ((ESP_OK, 7), hw (scripted_board [] 7))
  /\ GPIO_DRIVE_CAP_MAX <= 7.
Proof. split; [reflexivity | discriminate]. Qed.

Lemma PinOutputInput_new_makes_three_calls_witness :
  let num := {| GPIONum_value := 3 |} in
  let h1 := snd (gpio_reset_pin 3 (hw fresh_board)) in
  let h2 := snd (gpio_set_direction 3 GPIO_MODE_INPUT h1) in
  let reset := {| ev_call := call_gpio_reset_pin 3; ev_ret := ESP_OK |} in
  let input :=
    {| ev_call := call_gpio_set_direction 3 GPIO_MODE_INPUT;
       ev_ret := ESP_OK |} in
  let w' := snd (PinOutputInput_new num fresh_board) in
  (gpio_reset_pin 3 (hw fresh_board) = (ESP_OK, h1)
   /\ gpio_set_direction 3 GPIO_MODE_INPUT h1 = (ESP_OK, h2))
  /\ PinInput_new num fresh_board
     = (Returned {| PinInput_base := {| gpio_num := num |} |},
        {| hw := h2; calls := calls fresh_board ++ [reset; input] |})
  /\ issued fresh_board w'
     = [reset; input;
        {| ev_call := call_gpio_set_direction 3 GPIO_MODE_INPUT_OUTPUT_OD;
           ev_ret := fst (gpio_set_direction 3 GPIO_MODE_INPUT_OUTPUT_OD
                            h2) |}]
  /\ hw w' = snd (gpio_set_direction 3 GPIO_MODE_INPUT_OUTPUT_OD h2)
  /\ length (issued fresh_board w') = 3%nat
  /\ count_events is_reset (issued fresh_board w') = 1%nat
  /\ count_events is_set_direction (issued fresh_board w') = 2%nat.
Proof.
  intros num h1 h2 reset input w'. split.
  - split; reflexivity.
  - exact (proj2 (proj2 (PinOutputInput_new_makes_three_calls
                           illustrative_header MockHW mock_driver num
                           fresh_board))
             h1 h2 eq_refl eq_refl).
Defined.
(** On a board whose reset is scripted to fail with -1, the PinOutput
    constructor over pin 3 throws -1 after that one call and leaves the
    hardware as the reset left it. *)
Lemma constructors_reset_then_program_direction_witness :
  let num := {| GPIONum_value := 3 |} in
  let w := scripted_board [-1] 2 in
  let reset := {| ev_call := call_gpio_reset_pin 3; ev_ret := -1 |} in
  (gpio_reset_pin 3 (hw w) = (-1, hw fresh_board)
   /\ gpio_set_direction 3 GPIO_MODE_OUTPUT (hw fresh_board)
      = (ESP_OK, mock_set_direction 3 2 (hw fresh_board))
   /\ -1 <> ESP_OK)
  /\ PinOutput_new num w
     = (Thrown {| error := -1 |},
        {| hw := hw fresh_board; calls := calls w ++ [reset] |}).
Proof.
  intros num w reset.
  assert (Hne : -1 <> ESP_OK) by discriminate.
  split.
  - exact (conj eq_refl (conj eq_refl Hne)).
  - exact (proj1
             (proj1 (proj2 (constructors_reset_then_program_direction
                              illustrative_header MockHW mock_driver))
                num w (-1) (hw fresh_board) ESP_OK
                (mock_set_direction 3 2 (hw fresh_board)) eq_refl eq_refl)
             Hne).
Defined.
End Illustration.

(** ** Further properties of the validation tables *)

Section Tables.
Context {hdr : DriverHeader} {cfg : BuildConfig}.

Lemma INVALID_GPIOS_reserved p :
  In p INVALID_GPIOS <-> reserved_on CONFIG_IDF_TARGET p.
Proof.
  unfold INVALID_GPIOS, reserved_on.
  destruct CONFIG_IDF_TARGET; simpl; lia.
Qed.

Lemma isValidPin_ok_reserved p :
  error_codes_wf -> uint32 GPIO_NUM_MAX ->
  (isValidPin p = ESP_OK
   <-> p < GPIO_NUM_MAX /\ ~ reserved_on CONFIG_IDF_TARGET p).
Proof.
  intros Herr Hmax. rewrite <- INVALID_GPIOS_reserved.
  destruct (isValidPin_cases p Hmax) as [[Hok Hu]|[Hbad Hnu]].
  - rewrite Hok. split; [intros _; exact Hu | reflexivity].
  - rewrite Hbad. split; [intros Heq; now elim Herr | intros Hu; now elim Hnu].
Qed.
End Tables.

(** X1. On each build target isValidPin accepts exactly the pin numbers
    below GPIO_NUM_MAX outside the target's reserved range: 24 on LINUX and
    ESP32, 22 to 25 on ESP32S2 and ESP32S3, none on ESP32C3 and ESP32C2; every
    other number gets ESP_ERR_INVALID_ARG. *)
Theorem isValidPin_by_target
    (hdr : DriverHeader) (cfg : BuildConfig) (p : Z)
    (Herr : error_codes_wf) (Hmax : uint32 GPIO_NUM_MAX) :
  (isValidPin p = ESP_OK
   <-> p < GPIO_NUM_MAX /\ ~ reserved_on CONFIG_IDF_TARGET p)
  /\ (isValidPin p = ESP_ERR_INVALID_ARG
      <-> GPIO_NUM_MAX <= p \/ reserved_on CONFIG_IDF_TARGET p).
Proof.
  pose proof (isValidPin_ok_reserved p Herr Hmax) as Hok.
  split; [exact Hok|].
  assert (Hdec : reserved_on CONFIG_IDF_TARGET p
                 \/ ~ reserved_on CONFIG_IDF_TARGET p).
  { unfold reserved_on. destruct CONFIG_IDF_TARGET; lia || tauto. }
  destruct (isValidPin_cases p Hmax) as [[Hv _]|[Hv _]]; rewrite Hv in *.
  - split; [intros Heq; now elim Herr|].
    intros Hbad. destruct (proj1 Hok eq_refl) as [Hlt Hnr].
    destruct Hbad; [lia | tauto].
  - split; [|reflexivity]. intros _.
    destruct (Z_lt_le_dec p GPIO_NUM_MAX) as [Hlt|Hge]; [|now left].
    destruct Hdec as [Hr|Hnr]; [now right|].
    elim Herr. apply Hok. now split.
Qed.

(** X2. With the same GPIO_NUM_MAX, a pin number that isValidPin accepts
    under the table of ESP32S2 or ESP32S3 is accepted under the table of
    every target; and a pin number below 22 is accepted on every target as
    soon as it is below GPIO_NUM_MAX. *)
Theorem isValidPin_across_targets
    (hdr : DriverHeader) (strict any : BuildConfig) (p : Z)
    (Herr : error_codes_wf) (Hmax : uint32 GPIO_NUM_MAX)
    (Hstrict : @CONFIG_IDF_TARGET strict = IDF_TARGET_ESP32S2
               \/ @CONFIG_IDF_TARGET strict = IDF_TARGET_ESP32S3) :
  (@isValidPin hdr strict p = ESP_OK -> @isValidPin hdr any p = ESP_OK)
  /\ (p < 22 -> p < GPIO_NUM_MAX -> @isValidPin hdr any p = ESP_OK).
Proof.
  split.
  - intros Hok.
    apply (@isValidPin_ok_reserved hdr strict p Herr Hmax) in Hok.
    apply (@isValidPin_ok_reserved hdr any p Herr Hmax).
    destruct Hok as [Hlt Hnr]. split; [exact Hlt|].
    intros Hr. apply Hnr.
    destruct Hstrict as [-> | ->]; unfold reserved_on in *;
      destruct (@CONFIG_IDF_TARGET any); lia || tauto.
  - intros H22 Hlt.
    apply (@isValidPin_ok_reserved hdr any p Herr Hmax).
    split; [exact Hlt|]. unfold reserved_on.
    destruct (@CONFIG_IDF_TARGET any); lia || tauto.
Qed.

(** ** Further properties of the constructors and methods *)

Section Calls.
Context {hdr : DriverHeader} {cfg : BuildConfig}.
Context {HW : Type} {drv : Driver HW}.

Lemma issued_of_calls (w w' : World HW) evs :
  calls w' = calls w ++ evs -> issued w w' = evs.
Proof.
  intros Hc. unfold issued. rewrite Hc.
  rewrite skipn_app, skipn_all, Nat.sub_diag. reflexivity.
Qed.

Lemma never_throws_ok_ret {A} (a : A) :
  never_throws_ok (HW := HW) (ret a).
Proof. intros w e w' Hrun. discriminate. Qed.

Lemma never_throws_ok_check (err : World HW -> esp_err_t * World HW) :
  never_throws_ok (GPIO_CHECK_THROW err).
Proof.
  intros w e w' Hrun. unfold GPIO_CHECK_THROW in Hrun.
  destruct (err w) as [result w1].
  destruct (Z.eqb_spec result ESP_OK) as [Heq|Hne]; cbn [negb] in Hrun;
    [discriminate|].
  injection Hrun as <- _. exact Hne.
Qed.

Lemma never_throws_ok_bind {A B} (m : M HW A) (k : A -> M HW B) :
  never_throws_ok m -> (forall a, never_throws_ok (k a)) ->
  never_throws_ok (bind m k).
Proof.
  intros Hm Hk w e w' Hrun. unfold bind in Hrun.
  destruct (m w) as [[a|e1] w1] eqn:Em.
  - exact (Hk a w1 e w' Hrun).
  - injection Hrun as <- _. exact (Hm w e1 w1 Em).
Qed.

Lemma never_throws_ok_lift {A} (o : Outcome A) :
  (forall e, o = Thrown e -> error e <> ESP_OK) ->
  never_throws_ok (HW := HW) (lift o).
Proof.
  intros Ho w e w' Hrun. unfold lift in Hrun. injection Hrun as Heq _.
  exact (Ho e Heq).
Qed.

Lemma GPIONum_new_never_ok p e :
  GPIONum_new p = Thrown e -> error e <> ESP_OK.
Proof.
  unfold GPIONum_new.
  destruct (Z.eqb_spec (isValidPin p) ESP_OK) as [Heq|Hne]; cbn [negb];
    [discriminate|].
  intros Hrun. injection Hrun as <-. exact Hne.
Qed.

Lemma GPIODriveStrength_new_never_ok s e :
  GPIODriveStrength_new s = Thrown e -> error e <> ESP_OK.
Proof.
  unfold GPIODriveStrength_new.
  destruct (Z.eqb_spec (isValidDriveStrengthPin s) ESP_OK) as [Heq|Hne];
    cbn [negb]; [discriminate|].
  intros Hrun. injection Hrun as <-. exact Hne.
Qed.

Lemma GPIO_getDriveStrength_never_ok this :
  never_throws_ok (GPIO_getDriveStrength this).
Proof.
  intros w e w' Hrun. rewrite GPIO_getDriveStrength_run in Hrun.
  cbn zeta in Hrun.
  destruct (Z.eqb_spec
              (fst (fst (gpio_get_drive_capability (pin_of this) (hw w))))
              ESP_OK) as [Heq|Hne].
  - injection Hrun as Hnew _.
    exact (GPIODriveStrength_new_never_ok _ _ Hnew).
  - injection Hrun as <- _. exact Hne.
Qed.

Lemma PinInput_getLevel_returns this w :
  exists level, fst (PinInput_getLevel this w) = Returned level.
Proof.
  unfold PinInput_getLevel, driver_call.
  destruct (gpio_get_level (pin_of (PinInput_base this)) (hw w)) as [lv h].
  unfold id. destruct (negb (lv =? 0)); eexists; reflexivity.
Qed.


Lemma PinOutput_new_run num w :
  PinOutput_new num w
  = let pin := get_value num in
    let r0 := gpio_reset_pin pin (hw w) in
    let e0 := {| ev_call := call_gpio_reset_pin pin; ev_ret := fst r0 |} in
    if fst r0 =? ESP_OK then
      let r1 := gpio_set_direction pin GPIO_MODE_OUTPUT (snd r0) in
      let e1 := {| ev_call := call_gpio_set_direction pin GPIO_MODE_OUTPUT;
                   ev_ret := fst r1 |} in
      (if fst r1 =? ESP_OK
       then Returned {| PinOutput_base := {| gpio_num := num |} |}
       else Thrown {| error := fst r1 |},
       {| hw := snd r1; calls := calls w ++ [e0; e1] |})
    else (Thrown {| error := fst r0 |},
          {| hw := snd r0; calls := calls w ++ [e0] |}).
Proof.
  unfold PinOutput_new, GPIO_new, bind, ret, pin_of.
  rewrite checked_call_run. cbn [gpio_num]. cbn zeta.
  destruct (fst (gpio_reset_pin (get_value num) (hw w)) =? ESP_OK);
    [|reflexivity].
  rewrite checked_call_run. cbn [hw calls gpio_num]. rewrite <- app_assoc.
  destruct (fst (gpio_set_direction (get_value num) GPIO_MODE_OUTPUT
                   (snd (gpio_reset_pin (get_value num) (hw w))))
            =? ESP_OK); reflexivity.
Qed.

Ltac modes_of_events :=
  cbn [snd]; rewrite ?issued_app; cbn [In app];
  intros Hin Hmode;
  repeat match goal with
         | H : _ \/ _ |- _ => destruct H as [<-|H]
         | H : False |- _ => destruct H
         end;
  cbn [ev_call call_mode] in Hmode;
  first [ discriminate
        | injection Hmode as <-; cbn [In];
          first [left; reflexivity | right; left; reflexivity] ].

Lemma PinOutput_new_programs_only num :
  programs_only [GPIO_MODE_OUTPUT] (PinOutput_new num).
Proof.
  intros w e mode. rewrite PinOutput_new_run. cbn zeta.
  destruct (fst (gpio_reset_pin (get_value num) (hw w)) =? ESP_OK);
    modes_of_events.
Qed.

Lemma PinInput_new_programs_only num :
  programs_only [GPIO_MODE_INPUT] (PinInput_new num).
Proof.
  intros w e mode. rewrite PinInput_new_run. cbn zeta.
  destruct (fst (gpio_reset_pin (get_value num) (hw w)) =? ESP_OK);
    modes_of_events.
Qed.

Lemma PinOutputInput_new_programs_only num :
  programs_only [GPIO_MODE_INPUT; GPIO_MODE_INPUT_OUTPUT_OD]
    (PinOutputInput_new num).
Proof.
  intros w e mode. rewrite PinOutputInput_new_run, PinInput_new_run.
  cbn zeta.
  destruct (fst (gpio_reset_pin (get_value num) (hw w)) =? ESP_OK);
    [|modes_of_events].
  destruct (fst (gpio_set_direction (get_value num) GPIO_MODE_INPUT
                   (snd (gpio_reset_pin (get_value num) (hw w))))
            =? ESP_OK); [|modes_of_events].
  cbn [hw calls]. rewrite <- app_assoc. modes_of_events.
Qed.

(** The calls that [configure] lets a constructor make name the pin asked
    for, and are made only when that pin is usable. *)
Lemma configure_calls_usable {A} (ctor : GPIONum -> M HW A) num_of mode p w :
  ctor_protocol ctor num_of mode ->
  error_codes_wf -> uint32 GPIO_NUM_MAX ->
  forall e,
    In e (issued w (snd (configure ctor p w))) ->
    call_pin (ev_call e) = p /\ usable_pin p.
Proof.
  intros Hproto Herr Hmax e. unfold configure, bind, lift.
  destruct (isValidPin_cases p Hmax) as [[_ Hu]|[_ Hnu]].
  - rewrite (GPIONum_new_usable p Hmax Hu).
    destruct (Hproto {| GPIONum_value := p |} w)
      as [evs [Hcalls [[st [rest [Hevs [_ Hdirs]]]] _]]].
    rewrite (issued_of_calls _ _ _ Hcalls), Hevs. cbn [In].
    intros [<-|Hin]; [split; [reflexivity | exact Hu]|].
    rewrite Forall_forall in Hdirs. destruct (Hdirs e Hin) as [m ->].
    split; [reflexivity | exact Hu].
  - rewrite (GPIONum_new_unusable p Herr Hmax Hnu). cbn [snd].
    unfold issued. rewrite skipn_all. intros [].
Qed.
End Calls.

Ltac never_ok :=
  repeat first
    [ apply never_throws_ok_check
    | apply never_throws_ok_ret
    | apply GPIO_getDriveStrength_never_ok
    | apply never_throws_ok_bind; [|intros ?]
    | apply never_throws_ok_lift; apply GPIONum_new_never_ok ].

(** X3. No exception of the layer carries ESP_OK: whatever the driver
    answers, a GPIOException thrown by a checking constructor, by a pin
    constructor or by any method holds a status different from ESP_OK, and
    getLevel() throws nothing at all. *)
Theorem no_exception_carries_ESP_OK
    (hdr : DriverHeader) (cfg : BuildConfig) (HW : Type) (drv : Driver HW) :
  (forall p e, GPIONum_new p = Thrown e -> error e <> ESP_OK)
  /\ (forall s e, GPIODriveStrength_new s = Thrown e -> error e <> ESP_OK)
  /\ (forall p, never_throws_ok (configure PinOutput_new p)
                /\ never_throws_ok (configure PinInput_new p)
                /\ never_throws_ok (configure PinOutputInput_new p))
  /\ (forall num, never_throws_ok (PinOutput_new num)
                  /\ never_throws_ok (PinInput_new num)
                  /\ never_throws_ok (PinOutputInput_new num))
  /\ (forall this : GPIO,
         never_throws_ok (GPIO_holdEnable this)
         /\ never_throws_ok (GPIO_holdDisable this)
         /\ never_throws_ok (GPIO_getDriveStrength this)
         /\ forall s, never_throws_ok (GPIO_setDriveStrength this s))
  /\ (forall this : PinOutput,
         never_throws_ok (PinOutput_setHigh this)
         /\ never_throws_ok (PinOutput_setLow this))
  /\ (forall this : PinInput,
         (forall w, exists level,
               fst (PinInput_getLevel this w) = Returned level)
         /\ never_throws_ok (PinInput_wakeupDisable this)
         /\ (forall m, never_throws_ok (PinInput_setPullMode this m))
         /\ (forall t, never_throws_ok (PinInput_wakeupEnable this t)))
  /\ (forall this : PinOutputInput,
         never_throws_ok (PinOutputInput_setFloating this)
         /\ never_throws_ok (PinOutputInput_setLow this)).
Proof.
  split; [intros p e; apply GPIONum_new_never_ok|].
  split; [intros s e; apply GPIODriveStrength_new_never_ok|].
  split; [intros p; unfold configure, PinOutputInput_new, PinOutput_new,
            PinInput_new, GPIO_new; repeat split; never_ok|].
  split; [intros num; unfold PinOutputInput_new, PinOutput_new,
            PinInput_new, GPIO_new; repeat split; never_ok|].
  split; [intros this; repeat split; try intros s;
            first [apply GPIO_getDriveStrength_never_ok
                  | apply never_throws_ok_check]|].
  split; [intros this; split; apply never_throws_ok_check|].
  split; [|intros this; split; apply never_throws_ok_check].
  intros this. split; [intros w; apply PinInput_getLevel_returns|].
  repeat split; intros; apply never_throws_ok_check.
Qed.

(** X4. A configuration constructor reached through a raw pin number calls
    the driver only for that pin, and only if the pin is usable: every
    driver call made while constructing a PinOutput, PinInput or
    PinOutputInput over [p] names [p], and [p] is then below GPIO_NUM_MAX
    and not reserved. *)
Theorem configure_calls_name_a_usable_pin
    (hdr : DriverHeader) (cfg : BuildConfig) (HW : Type) (drv : Driver HW)
    (p : Z) (w : World HW)
    (Herr : error_codes_wf) (Hmax : uint32 GPIO_NUM_MAX) :
  (forall e, In e (issued w (snd (configure PinOutput_new p w))) ->
             call_pin (ev_call e) = p /\ usable_pin p)
  /\ (forall e, In e (issued w (snd (configure PinInput_new p w))) ->
                call_pin (ev_call e) = p /\ usable_pin p)
  /\ (forall e, In e (issued w (snd (configure PinOutputInput_new p w))) ->
                call_pin (ev_call e) = p /\ usable_pin p).
Proof.
  split; [|split].
  - exact (configure_calls_usable _ _ _ p w PinOutput_new_protocol Herr Hmax).
  - exact (configure_calls_usable _ _ _ p w PinInput_new_protocol Herr Hmax).
  - exact (configure_calls_usable _ _ _ p w PinOutputInput_new_protocol
             Herr Hmax).
Qed.

Section Methods.
Context {hdr : DriverHeader} {cfg : BuildConfig}.
Context {HW : Type} {drv : Driver HW}.



(** getDriveStrength() when the driver reports success and a code in
    range. *)
Lemma GPIO_getDriveStrength_in_range this w code h :
  uint32 GPIO_DRIVE_CAP_MAX ->
  gpio_get_drive_capability (pin_of this) (hw w) = ((ESP_OK, code), h) ->
  to_uint32 code < GPIO_DRIVE_CAP_MAX ->
  GPIO_getDriveStrength this w
  = (Returned {| GPIODriveStrength_value := to_uint32 code |},
     {| hw := h;
        calls := calls w
                 ++ [{| ev_call := call_gpio_get_drive_capability
                                     (pin_of this);
                        ev_ret := ESP_OK |}] |}).
Proof.
  intros Hmax Hreply Hlt. rewrite GPIO_getDriveStrength_run, Hreply.
  cbn [fst snd]. rewrite Z.eqb_refl.
  now rewrite (GPIODriveStrength_new_in_range _ Hmax Hlt).
Qed.
End Methods.


(** X6. Each constructor programs no direction but its own: whatever the
    driver answers, every gpio_set_direction call of the PinOutput
    constructor asks for GPIO_MODE_OUTPUT, every one of the PinInput
    constructor for GPIO_MODE_INPUT, and every one of the PinOutputInput
    constructor for GPIO_MODE_INPUT or GPIO_MODE_INPUT_OUTPUT_OD. *)
Theorem constructors_program_only_their_modes
    (hdr : DriverHeader) (HW : Type) (drv : Driver HW) (num : GPIONum) :
  programs_only [GPIO_MODE_OUTPUT] (PinOutput_new num)
  /\ programs_only [GPIO_MODE_INPUT] (PinInput_new num)
  /\ programs_only [GPIO_MODE_INPUT; GPIO_MODE_INPUT_OUTPUT_OD]
       (PinOutputInput_new num).
Proof.
  split; [|split].
  - apply PinOutput_new_programs_only.
  - apply PinInput_new_programs_only.
  - apply PinOutputInput_new_programs_only.
Qed.

(** X7. On the same pin number, PinOutputInput::setLow() and
    PinOutput::setLow() are the same operation: each makes the single driver
    call gpio_set_level(pin, 0), leaves the same world, and throws the
    status of that call exactly when it is not ESP_OK. *)
Theorem PinOutputInput_setLow_is_PinOutput_setLow
    (hdr : DriverHeader) (HW : Type) (drv : Driver HW)
    (o : PinOutput) (oi : PinOutputInput) (w : World HW)
    (Hsame : get_value (gpio_num (PinOutput_base o))
             = get_value
                 (gpio_num (PinInput_base (PinOutputInput_base oi)))) :
  PinOutputInput_setLow oi w = PinOutput_setLow o w
  /\ decided_by_driver (PinOutputInput_setLow oi)
       (call_gpio_set_level (pin_of (PinOutput_base o)) 0)
  /\ decided_by_driver (PinOutput_setLow o)
       (call_gpio_set_level (pin_of (PinOutput_base o)) 0).
Proof.
  unfold PinOutputInput_setLow, PinOutput_setLow, pin_of.
  rewrite <- Hsame. split; [reflexivity | split; apply checked_call_decided].
Qed.

(** X8. getDriveStrength() never looks at the out-parameter of a failed
    read: when gpio_get_drive_capability reports a status other than ESP_OK,
    that status is thrown whatever code was written; when it reports ESP_OK
    and a code below GPIO_DRIVE_CAP_MAX, the drive strength holding that
    code is returned.  Either way one driver call is logged. *)
Theorem getDriveStrength_outcomes
    (hdr : DriverHeader) (HW : Type) (drv : Driver HW)
    (this : GPIO) (w : World HW) (st code : Z) (h : HW)
    (Hmax : uint32 GPIO_DRIVE_CAP_MAX)
    (Hreply : gpio_get_drive_capability (pin_of this) (hw w)
              = ((st, code), h)) :
  let w' :=
    {| hw := h;
       calls := calls w
                ++ [{| ev_call := call_gpio_get_drive_capability
                                    (pin_of this);
                       ev_ret := st |}] |} in
  (st <> ESP_OK ->
   GPIO_getDriveStrength this w = (Thrown {| error := st |}, w'))
  /\ (st = ESP_OK -> uint32 code -> code < GPIO_DRIVE_CAP_MAX ->
      GPIO_getDriveStrength this w
      = (Returned {| GPIODriveStrength_value := code |}, w')).
Proof.
  intros w'. subst w'. split.
  - intros Hne. rewrite GPIO_getDriveStrength_run, Hreply. cbn [fst snd].
    destruct (Z.eqb_spec st ESP_OK) as [Heq|_]; [now elim Hne | reflexivity].
  - intros -> Hcode Hlt.
    rewrite <- (to_uint32_small code Hcode) at 1.
    apply GPIO_getDriveStrength_in_range; try assumption.
    now rewrite (to_uint32_small code Hcode).
Qed.

(** X9. getDriveStrength() gives back the named strengths: when the driver
    reports ESP_OK and the code GPIO_DRIVE_CAP_0, 1, 2 or 3, the result is
    what WEAK(), LESS_WEAK(), MEDIUM() (and DEFAULT()) or STRONGEST()
    returns. *)
Theorem getDriveStrength_returns_named_strength
    (hdr : DriverHeader) (HW : Type) (drv : Driver HW)
    (this : GPIO) (w : World HW) (code : Z) (h : HW)
    (named : Outcome GPIODriveStrength)
    (Hcaps : drive_caps_wf)
    (Hnamed : In (code, named)
                [(GPIO_DRIVE_CAP_0, WEAK); (GPIO_DRIVE_CAP_1, LESS_WEAK);
                 (GPIO_DRIVE_CAP_2, MEDIUM); (GPIO_DRIVE_CAP_2, DEFAULT);
                 (GPIO_DRIVE_CAP_3, STRONGEST)])
    (Hreply : gpio_get_drive_capability (pin_of this) (hw w)
              = ((ESP_OK, code), h)) :
  fst (GPIO_getDriveStrength this w) = named
  /\ exists d, named = Returned d /\ get_value d = code.
Proof.
  destruct Hcaps as [[Hc32 _] [Hclt Hmax]].
  rewrite Forall_forall in Hc32, Hclt.
  assert (Hcode : In code [GPIO_DRIVE_CAP_0; GPIO_DRIVE_CAP_1;
                           GPIO_DRIVE_CAP_2; GPIO_DRIVE_CAP_3]
                  /\ named = GPIODriveStrength_new (to_uint32 code)).
  { cbn [In] in Hnamed |- *.
    repeat match goal with
           | H : _ \/ _ |- _ => destruct H as [H|H]
           | H : (_, _) = (_, _) |- _ => injection H as <- <-
           | H : False |- _ => destruct H
           end; split; try reflexivity; tauto. }
  destruct Hcode as [Hin ->].
  rewrite (drive_factory_succeeds code Hmax (Hc32 _ Hin) (Hclt _ Hin)).
  split; [|eexists; split; reflexivity].
  rewrite (GPIO_getDriveStrength_in_range this w code h Hmax Hreply);
    rewrite (to_uint32_small code (Hc32 _ Hin)); [reflexivity|].
  exact (Hclt _ Hin).
Qed.


(** X11. Setting a drive strength and reading it back gives the same
    strength: when gpio_set_drive_capability reports ESP_OK and
    gpio_get_drive_capability then reports ESP_OK with the code just set,
    setDriveStrength(d) followed by getDriveStrength() returns [d], after
    exactly these two driver calls. *)
Theorem setDriveStrength_then_getDriveStrength
    (hdr : DriverHeader) (HW : Type) (drv : Driver HW)
    (this : GPIO) (d : GPIODriveStrength) (w : World HW) (h1 h2 : HW)
    (Hmax : uint32 GPIO_DRIVE_CAP_MAX) (Hd : valid_GPIODriveStrength d)
    (Hset : gpio_set_drive_capability (pin_of this) (get_value d) (hw w)
            = (ESP_OK, h1))
    (Hget : gpio_get_drive_capability (pin_of this) h1
            = ((ESP_OK, get_value d), h2)) :
  bind (GPIO_setDriveStrength this d) (fun _ => GPIO_getDriveStrength this) w
  = (Returned d,
     {| hw := h2;
        calls := calls w
                 ++ [{| ev_call := call_gpio_set_drive_capability
                                     (pin_of this) (get_value d);
                        ev_ret := ESP_OK |};
                     {| ev_call := call_gpio_get_drive_capability
                                     (pin_of this);
                        ev_ret := ESP_OK |}] |}).
Proof.
  unfold valid_GPIODriveStrength in Hd.
  assert (Hv : uint32 (get_value d)) by (unfold uint32 in *; lia).
  unfold bind, GPIO_setDriveStrength. rewrite checked_call_run, Hset.
  cbn [fst snd]. rewrite Z.eqb_refl.
  rewrite (GPIO_getDriveStrength_in_range this _ (get_value d) h2 Hmax).
  - rewrite (to_uint32_small _ Hv). cbn [calls]. rewrite <- app_assoc.
    destruct d as [v]. reflexivity.
  - exact Hget.
  - rewrite (to_uint32_small _ Hv). lia.
Qed.

(** X12. An output pin built over a usable pin number can be driven high
    and then low: when the driver answers ESP_OK to the reset, to the
    direction call and to both level calls, constructing a PinOutput over
    [p] and calling setHigh() then setLow() succeeds, the object holds [p],
    and the driver saw exactly gpio_reset_pin(p), gpio_set_direction(p,
    GPIO_MODE_OUTPUT), gpio_set_level(p, 1), gpio_set_level(p, 0). *)
Theorem PinOutput_setHigh_then_setLow
    (hdr : DriverHeader) (cfg : BuildConfig) (HW : Type) (drv : Driver HW)
    (p : Z) (w : World HW) (h1 h2 h3 h4 : HW)
    (Hmax : uint32 GPIO_NUM_MAX) (Hp : usable_pin p)
    (Hreset : gpio_reset_pin p (hw w) = (ESP_OK, h1))
    (Hdir : gpio_set_direction p GPIO_MODE_OUTPUT h1 = (ESP_OK, h2))
    (Hhigh : gpio_set_level p 1 h2 = (ESP_OK, h3))
    (Hlow : gpio_set_level p 0 h3 = (ESP_OK, h4)) :
  bind (configure PinOutput_new p)
    (fun o => bind (PinOutput_setHigh o)
                (fun _ => bind (PinOutput_setLow o) (fun _ => ret o))) w
  = (Returned {| PinOutput_base :=
                   {| gpio_num := {| GPIONum_value := p |} |} |},
     {| hw := h4;
        calls := calls w
                 ++ [{| ev_call := call_gpio_reset_pin p; ev_ret := ESP_OK |};
                     {| ev_call := call_gpio_set_direction p GPIO_MODE_OUTPUT;
                        ev_ret := ESP_OK |};
                     {| ev_call := call_gpio_set_level p 1;
                        ev_ret := ESP_OK |};
                     {| ev_call := call_gpio_set_level p 0;
                        ev_ret := ESP_OK |}] |}).
Proof.
  unfold configure, bind at 1 2, lift.
  rewrite (GPIONum_new_usable p Hmax Hp). rewrite PinOutput_new_run.
  cbn zeta. cbn [get_value GPIONum_strong GPIONum_value].
  rewrite Hreset. cbn [fst snd]. rewrite Z.eqb_refl, Hdir. cbn [fst snd].
  rewrite Z.eqb_refl. unfold bind, PinOutput_setHigh, PinOutput_setLow, ret,
    pin_of.
  cbn [PinOutput_base gpio_num get_value GPIONum_strong GPIONum_value].
  rewrite checked_call_run. cbn [hw calls]. rewrite Hhigh. cbn [fst snd].
  rewrite Z.eqb_refl. rewrite checked_call_run. cbn [hw calls].
  rewrite Hlow. cbn [fst snd]. rewrite Z.eqb_refl.
  now rewrite <- !app_assoc.
Qed.

(** ** Further runs on the illustrative platform *)

Section MoreIllustration.
#[local] Existing Instance illustrative_header.
#[local] Existing Instance linux_config.

Lemma usable_pin_3 : usable_pin 3.
Proof.
  split; [reflexivity|]. cbn. intros [H|[]]. discriminate.
Defined.

Lemma valid_strength_3 :
  valid_GPIODriveStrength {| GPIODriveStrength_value := 3 |}.
Proof. split; [discriminate | reflexivity]. Defined.

Lemma isValidPin_by_target_witness :
  (error_codes_wf /\ uint32 GPIO_NUM_MAX)
  /\ (isValidPin 24 = ESP_OK
      <-> 24 < GPIO_NUM_MAX /\ ~ reserved_on CONFIG_IDF_TARGET 24)
  /\ (isValidPin 24 = ESP_ERR_INVALID_ARG
      <-> GPIO_NUM_MAX <= 24 \/ reserved_on CONFIG_IDF_TARGET 24).
Proof.
  split.
  - exact (conj illustrative_error_codes illustrative_num_max).
  - exact (isValidPin_by_target illustrative_header linux_config 24
             illustrative_error_codes illustrative_num_max).
Defined.

Lemma isValidPin_across_targets_witness :
  (error_codes_wf /\ uint32 GPIO_NUM_MAX
   /\ (@CONFIG_IDF_TARGET esp32s2_config = IDF_TARGET_ESP32S2
       \/ @CONFIG_IDF_TARGET esp32s2_config = IDF_TARGET_ESP32S3))
  /\ (@isValidPin illustrative_header esp32s2_config 3 = ESP_OK ->
      @isValidPin illustrative_header linux_config 3 = ESP_OK)
  /\ (3 < 22 -> 3 < GPIO_NUM_MAX ->
      @isValidPin illustrative_header linux_config 3 = ESP_OK).
Proof.
  split.
  - exact (conj illustrative_error_codes
             (conj illustrative_num_max (or_introl eq_refl))).
  - exact (isValidPin_across_targets illustrative_header esp32s2_config
             linux_config 3 illustrative_error_codes illustrative_num_max
             (or_introl eq_refl)).
Defined.

Lemma configure_calls_name_a_usable_pin_witness :
  (error_codes_wf /\ uint32 GPIO_NUM_MAX)
  /\ (forall e,
         In e (issued fresh_board (snd (configure PinOutput_new 3
                                          fresh_board))) ->
         call_pin (ev_call e) = 3 /\ usable_pin 3)
  /\ (forall e,
         In e (issued fresh_board (snd (configure PinInput_new 3
                                          fresh_board))) ->
         call_pin (ev_call e) = 3 /\ usable_pin 3)
  /\ (forall e,
         In e (issued fresh_board (snd (configure PinOutputInput_new 3
                                          fresh_board))) ->
         call_pin (ev_call e) = 3 /\ usable_pin 3).
Proof.
  split.
  - exact (conj illustrative_error_codes illustrative_num_max).
  - exact (configure_calls_name_a_usable_pin illustrative_header linux_config
             MockHW mock_driver 3 fresh_board illustrative_error_codes
             illustrative_num_max).
Defined.

Lemma PinOutputInput_setLow_is_PinOutput_setLow_witness :
  get_value (gpio_num (PinOutput_base {| PinOutput_base := pin3 |}))
  = get_value
      (gpio_num
         (PinInput_base
            (PinOutputInput_base
               {| PinOutputInput_base := {| PinInput_base := pin3 |} |})))
  /\ PinOutputInput_setLow
       {| PinOutputInput_base := {| PinInput_base := pin3 |} |} fresh_board
     = PinOutput_setLow {| PinOutput_base := pin3 |} fresh_board
  /\ decided_by_driver
       (PinOutputInput_setLow
          {| PinOutputInput_base := {| PinInput_base := pin3 |} |})
       (call_gpio_set_level (pin_of pin3) 0)
  /\ decided_by_driver (PinOutput_setLow {| PinOutput_base := pin3 |})
       (call_gpio_set_level (pin_of pin3) 0).
Proof.
  split.
  - reflexivity.
  - exact (PinOutputInput_setLow_is_PinOutput_setLow illustrative_header
             MockHW mock_driver {| PinOutput_base := pin3 |}
             {| PinOutputInput_base := {| PinInput_base := pin3 |} |}
             fresh_board eq_refl).
Defined.

Lemma getDriveStrength_outcomes_witness :
  (uint32 GPIO_DRIVE_CAP_MAX
   /\ gpio_get_drive_capability (pin_of pin3) (hw (scripted_board [259] 1))
      = ((259, 1), hw (scripted_board [] 1)))
  /\ (259 <> ESP_OK ->
      GPIO_getDriveStrength pin3 (scripted_board [259] 1)
      = (Thrown {| error := 259 |},
         {| hw := hw (scripted_board [] 1);
            calls := calls (scripted_board [259] 1)
                     ++ [{| ev_call := call_gpio_get_drive_capability
                                         (pin_of pin3);
                            ev_ret := 259 |}] |}))
  /\ (259 = ESP_OK -> uint32 1 -> 1 < GPIO_DRIVE_CAP_MAX ->
      GPIO_getDriveStrength pin3 (scripted_board [259] 1)
      = (Returned {| GPIODriveStrength_value := 1 |},
         {| hw := hw (scripted_board [] 1);
            calls := calls (scripted_board [259] 1)
                     ++ [{| ev_call := call_gpio_get_drive_capability
                                         (pin_of pin3);
                            ev_ret := 259 |}] |})).
Proof.
  split.
  - split; [exact illustrative_cap_max | reflexivity].
  - exact (getDriveStrength_outcomes illustrative_header MockHW mock_driver
             pin3 (scripted_board [259] 1) 259 1 (hw (scripted_board [] 1))
             illustrative_cap_max eq_refl).
Defined.

Lemma getDriveStrength_returns_named_strength_witness :
  (drive_caps_wf
   /\ In (2, MEDIUM)
        [(GPIO_DRIVE_CAP_0, WEAK); (GPIO_DRIVE_CAP_1, LESS_WEAK);
         (GPIO_DRIVE_CAP_2, MEDIUM); (GPIO_DRIVE_CAP_2, DEFAULT);
         (GPIO_DRIVE_CAP_3, STRONGEST)]
   /\ gpio_get_drive_capability (pin_of pin3) (hw fresh_board)
      = ((ESP_OK, 2), hw fresh_board))
  /\ fst (GPIO_getDriveStrength pin3 fresh_board) = MEDIUM
  /\ exists d, MEDIUM = Returned d /\ get_value d = 2.
Proof.
  assert (Hnamed : In (2, MEDIUM)
                     [(GPIO_DRIVE_CAP_0, WEAK); (GPIO_DRIVE_CAP_1, LESS_WEAK);
                      (GPIO_DRIVE_CAP_2, MEDIUM); (GPIO_DRIVE_CAP_2, DEFAULT);
                      (GPIO_DRIVE_CAP_3, STRONGEST)])
    by (right; right; left; reflexivity).
  split.
  - exact (conj illustrative_drive_caps (conj Hnamed eq_refl)).
  - exact (getDriveStrength_returns_named_strength illustrative_header MockHW
             mock_driver pin3 fresh_board 2 (hw fresh_board) MEDIUM
             illustrative_drive_caps Hnamed eq_refl).
Defined.


Lemma setDriveStrength_then_getDriveStrength_witness :
  (uint32 GPIO_DRIVE_CAP_MAX
   /\ valid_GPIODriveStrength {| GPIODriveStrength_value := 3 |}
   /\ gpio_set_drive_capability (pin_of pin3) 3 (hw fresh_board)
      = (ESP_OK, hw (scripted_board [] 3))
   /\ gpio_get_drive_capability (pin_of pin3) (hw (scripted_board [] 3))
      = ((ESP_OK, 3), hw (scripted_board [] 3)))
  /\ bind (GPIO_setDriveStrength pin3 {| GPIODriveStrength_value := 3 |})
       (fun _ => GPIO_getDriveStrength pin3) fresh_board
     = (Returned {| GPIODriveStrength_value := 3 |},
        {| hw := hw (scripted_board [] 3);
           calls := calls fresh_board
                    ++ [{| ev_call := call_gpio_set_drive_capability
                                        (pin_of pin3) 3;
                           ev_ret := ESP_OK |};
                        {| ev_call := call_gpio_get_drive_capability
                                        (pin_of pin3);
                           ev_ret := ESP_OK |}] |}).
Proof.
  split.
  - exact (conj illustrative_cap_max
             (conj valid_strength_3 (conj eq_refl eq_refl))).
  - exact (setDriveStrength_then_getDriveStrength illustrative_header MockHW
             mock_driver pin3 {| GPIODriveStrength_value := 3 |} fresh_board
             (hw (scripted_board [] 3)) (hw (scripted_board [] 3))
             illustrative_cap_max valid_strength_3 eq_refl eq_refl).
Defined.

Lemma PinOutput_setHigh_then_setLow_witness :
  (uint32 GPIO_NUM_MAX /\ usable_pin 3
   /\ gpio_reset_pin 3 (hw fresh_board) = (ESP_OK, hw fresh_board)
   /\ gpio_set_direction 3 GPIO_MODE_OUTPUT (hw fresh_board)
      = (ESP_OK, mock_set_direction 3 2 (hw fresh_board))
   /\ gpio_set_level 3 1 (mock_set_direction 3 2 (hw fresh_board))
      = (ESP_OK,
         mock_set_level 3 1 (mock_set_direction 3 2 (hw fresh_board)))
   /\ gpio_set_level 3 0
        (mock_set_level 3 1 (mock_set_direction 3 2 (hw fresh_board)))
      = (ESP_OK,
         mock_set_level 3 0 (mock_set_direction 3 2 (hw fresh_board))))
  /\ bind (configure PinOutput_new 3)
       (fun o => bind (PinOutput_setHigh o)
                   (fun _ => bind (PinOutput_setLow o) (fun _ => ret o)))
       fresh_board
     = (Returned {| PinOutput_base := pin3 |},
        {| hw := mock_set_level 3 0 (mock_set_direction 3 2 (hw fresh_board));
           calls := calls fresh_board
                    ++ [{| ev_call := call_gpio_reset_pin 3;
                           ev_ret := ESP_OK |};
                        {| ev_call := call_gpio_set_direction 3
                                        GPIO_MODE_OUTPUT;
                           ev_ret := ESP_OK |};
                        {| ev_call := call_gpio_set_level 3 1;
                           ev_ret := ESP_OK |};
                        {| ev_call := call_gpio_set_level 3 0;
                           ev_ret := ESP_OK |}] |}).
Proof.
  split.
  - exact (conj illustrative_num_max
             (conj usable_pin_3
                (conj eq_refl (conj eq_refl (conj eq_refl eq_refl))))).
  - exact (PinOutput_setHigh_then_setLow illustrative_header linux_config
             MockHW mock_driver 3 fresh_board (hw fresh_board)
             (mock_set_direction 3 2 (hw fresh_board))
             (mock_set_level 3 1 (mock_set_direction 3 2 (hw fresh_board)))
             (mock_set_level 3 0 (mock_set_direction 3 2 (hw fresh_board)))
             illustrative_num_max usable_pin_3 eq_refl eq_refl eq_refl
             eq_refl).
Defined.
End MoreIllustration.
